(** * Slidy: a range-selection control (src/script.js)

    A shallow embedding of the two classes of [script.js] -- [Draggable]
    and [Slidy] -- and the properties of the value engine.

    Numbers.  A JavaScript number is modelled as an exact rational [Q]:
    arithmetic is exact and every value is finite.  [NaN] and the
    infinities are not represented; in this program they arise only from
    a zero [step], a zero [max - min], a zero-width parent element or a
    string that is not a digit string, and statements that would meet
    them carry the hypothesis that rules them out.  On whole numbers of
    ordinary size ([small_integer]) the exact operations are those of
    binary64; with fractions they are not, and a statement whose truth
    depends on the difference is made of whole numbers only.  Module
    [Double] has the binary64 operations themselves, for the places
    where the code's rounding decides: the rounding of a drag, a step
    with a fraction, the accumulation in the segment loop.

    Values.  A slot of [this.values] holds either a number or a string:
    the text channel stores the filtered text itself, unparsed, and the
    operators of the engine coerce it where they use it.  [jsval] keeps
    the two apart.

    The document, its elements and the frame callbacks are not
    modelled: an input is its [value], a style hook the percentage last
    written to it, and every listener is a function on the state that
    runs to completion. *)

From Stdlib Require Import QArith Qround ZArith Lia Lqa.
From Stdlib Require Import Bool Ascii String DecimalString List.
From Stdlib Require SpecFloat.
Import ListNotations.

Local Open Scope Q_scope.

(* ------------------------------------------------------------------ *)
(** ** Numbers and strings of JavaScript *)

Module Js.

(** [Math.round]: the nearest integer, ties towards +infinity. *)
Definition Math_round (x : Q) : Z := Qfloor (x + (1 # 2)).

(** Truncation towards zero, the integer quotient behind [%]. *)
Definition trunc (x : Q) : Z :=
  if Qle_bool 0 x then Qfloor x else Qceiling x.

(** [a % b] on finite numbers with [b] non-zero: the remainder of the
    truncated division, its sign the sign of [a]. *)
Definition rem (a b : Q) : Q := a - b * inject_Z (trunc (a / b)).

(** A value stored in a slot. *)
Inductive jsval : Type :=
| JNum (q : Q)
| JStr (s : string).

Definition is_digit (c : ascii) : bool :=
  let n := nat_of_ascii c in (48 <=? n)%nat && (n <=? 57)%nat.

Definition digit_value (c : ascii) : Z := Z.of_nat (nat_of_ascii c) - 48.

Fixpoint digits_from (acc : Z) (s : string) : Z :=
  match s with
  | EmptyString => acc
  | String c t => digits_from (10 * acc + digit_value c) t
  end.

(** A string all of whose characters are decimal digits; the empty
    string is one. *)
Fixpoint digit_string (s : string) : bool :=
  match s with
  | EmptyString => true
  | String c t => is_digit c && digit_string t
  end.

(** [ToNumber].  On a digit string it is the decimal reading, and 0 on
    the empty string.  (On any other string JavaScript gives [NaN] or
    reads a sign, a fraction or an exponent: only digit strings are
    meant here, see [wf].) *)
Definition to_number (v : jsval) : Q :=
  match v with
  | JNum q => q
  | JStr s => inject_Z (digits_from 0 s)
  end.

(** The values the model is about: numbers and digit strings. *)
Definition wf (v : jsval) : Prop :=
  match v with
  | JNum _ => True
  | JStr s => digit_string s = true
  end.

Definition Qlt_bool (a b : Q) : bool := negb (Qle_bool b a).

(** [a < b]: two strings compare by code units, lexicographically;
    any other pair compares as numbers. *)
Definition lt (a b : jsval) : bool :=
  match a, b with
  | JStr s, JStr t => String.ltb s t
  | _, _ => Qlt_bool (to_number a) (to_number b)
  end.

(** [a > b] is [b < a]. *)
Definition gt (a b : jsval) : bool := lt b a.

(** [a == b]: two strings are equal when they are the same string; any
    other pair is compared as numbers. *)
Definition loose_eq (a b : jsval) : bool :=
  match a, b with
  | JStr s, JStr t => String.eqb s t
  | _, _ => Qeq_bool (to_number a) (to_number b)
  end.

(** [a - b] always converts both sides to numbers. *)
Definition sub (a b : jsval) : Q := to_number a - to_number b.

(** [ToString] of a number that is an integer, in decimal.  (A number
    with a fraction has a decimal expansion that is not modelled: [None].
    JavaScript switches to exponent notation from 10^21 on.) *)
Definition number_to_string (q : Q) : option string :=
  let r := Qred q in
  if (Qden r =? 1)%positive
  then Some (NilZero.string_of_int (Z.to_int (Qnum r)))
  else None.

(** [a + b] with [b] a number: the sum when [a] is a number, the
    concatenation of [a] and [ToString b] when [a] is a string. *)
Definition add (a : jsval) (b : Q) : option jsval :=
  match a with
  | JNum q => Some (JNum (q + b))
  | JStr s => option_map (fun t => JStr (s ++ t)%string) (number_to_string b)
  end.

(** [text.replace(/[^0-9]/g, '')] *)
Fixpoint strip_non_digits (s : string) : string :=
  match s with
  | EmptyString => EmptyString
  | String c t =>
      if is_digit c then String c (strip_non_digits t)
      else strip_non_digits t
  end.

End Js.
Import Js.

(* ------------------------------------------------------------------ *)
(** ** Draggable *)

Module Draggable.

Record t : Type := mk {
  isDragging : bool;
  currentX : Q
}.

(** The constructor: not dragging, offset 0. *)
Definition init : t := mk false 0.

Definition handleMouseDown (d : t) : t := mk true (currentX d).

(** [pageX] is the pointer's absolute X of the event, [width] the width
    of the element's bounding rectangle.  Nothing happens unless a drag
    is in progress. *)
Definition handleMouseMove (pageX width : Q) (d : t) : t :=
  if negb (isDragging d) then d
  else mk (isDragging d) (pageX - width).

Definition handleMouseUp (d : t) : t := mk false (currentX d).

(** [updatePosition]: the percentage handed to the callback;
    [parentWidth] is the width of the parent element, non-zero. *)
Definition locationPercent (parentWidth : Q) (d : t) : Q :=
  (currentX d / parentWidth) * 100.

(** The three listeners of [init], as the events they are bound to. *)
Inductive event : Type :=
| MouseDown
| MouseMove (pageX width : Q)
| MouseUp.

Definition handle (d : t) (e : event) : t :=
  match e with
  | MouseDown => handleMouseDown d
  | MouseMove pageX width => handleMouseMove pageX width d
  | MouseUp => handleMouseUp d
  end.

(** The events of a session, oldest first. *)
Definition run (d : t) (es : list event) : t := fold_left handle es d.

Definition is_move (e : event) : Prop :=
  match e with
  | MouseMove _ _ => True
  | _ => False
  end.

End Draggable.

(* ------------------------------------------------------------------ *)
(** ** Slidy: options and state *)

(** [this.options] after the constructor has filled in the defaults. *)
Record Options : Type := mkOptions {
  min : Q;
  max : Q;
  step : Q;
  segmentsCount : option Q
}.

(** [#normalizeMinMax] *)
Definition normalizeMinMax (o : Options) (value : jsval) : jsval :=
  if lt value (JNum (min o)) then JNum (min o)
  else if gt value (JNum (max o)) then JNum (max o)
  else if Qeq_bool (rem (to_number value) (step o)) 0 then value
  else JNum (inject_Z (Math_round (to_number value / step o)) * step o).

(** The four ways through [#normalizeMinMax]. *)
Inductive normalize_case (o : Options) (v : jsval) : jsval -> Prop :=
| Below : to_number v < min o -> normalize_case o v (JNum (min o))
| Above : min o <= to_number v -> max o < to_number v ->
          normalize_case o v (JNum (max o))
| Kept : min o <= to_number v -> to_number v <= max o ->
         rem (to_number v) (step o) == 0 -> normalize_case o v v
| Rounded : min o <= to_number v -> to_number v <= max o ->
            ~ rem (to_number v) (step o) == 0 ->
            normalize_case o v
              (JNum (inject_Z (Math_round (to_number v / step o))
                     * step o)).

(** [this.values[i] = v]: replaces the element at an index inside the
    array and appends at the index equal to its length.  (Past the length
    JavaScript leaves holes; the engine never assigns there.) *)
Fixpoint assign (i : nat) (v : jsval) (l : list jsval) : list jsval :=
  match i, l with
  | O, [] => [v]
  | O, _ :: t => v :: t
  | S _, [] => [v]
  | S j, h :: t => h :: assign j v t
  end.

(** The state of a mounted widget: the options, the stored values and
    what the presentation surfaces show.  An input is represented by the
    value last assigned to its [value], a style hook by the percentage
    last written to it.  The second input and the second button exist in
    range mode only. *)
Record Slidy : Type := mkSlidy {
  options : Options;
  values : list jsval;
  minInput : jsval;
  maxInput : option jsval;
  minButton_left : Q;          (* --jj-sildy-button-left of minButton *)
  maxButton_left : option Q;   (* --jj-sildy-button-left of maxButton *)
  track_min_left : Q;          (* --jj-sildy-track-min-left *)
  track_max_left : Q           (* --jj-sildy-track-max-left *)
}.

(** [values[i]] at an index inside the array. *)
Definition at_index (i : nat) (l : list jsval) : jsval := nth i l (JNum 0).

(** The percentage of [#updateTrack]; [max - min] is non-zero. *)
Definition percent (o : Options) (v : jsval) : Q :=
  (sub v (JNum (min o)) / (max o - min o)) * 100.

(** The ordering step of [updateValues]: a pair that is out of order
    has its head shifted out and pushed at the end. *)
Definition reorder (vs : list jsval) : list jsval :=
  if (length vs =? 2)%nat && gt (at_index 0 vs) (at_index 1 vs)
  then match vs with
       | temp :: rest => rest ++ [temp]
       | [] => vs
       end
  else vs.

(** [updateValues] followed by [#updateTrack]. *)
Definition updateValues (vals : list jsval) (s : Slidy) : Slidy :=
  let o := options s in
  let vs := reorder (map (normalizeMinMax o) vals) in
  let range := (length vs =? 2)%nat in
  let minPercent := percent o (at_index 0 vs) in
  let maxPercent := percent o (at_index 1 vs) in
  mkSlidy o vs
    (at_index 0 vs)
    (if range then Some (at_index 1 vs) else maxInput s)
    minPercent
    (if range then Some maxPercent else maxButton_left s)
    (if range then minPercent else 0)
    (if range then maxPercent else minPercent).

(** [#updateMin] *)
Definition updateMin (newValue : jsval) (s : Slidy) : Slidy :=
  updateValues (assign 0 newValue (values s)) s.

(** [#updateMax] *)
Definition updateMax (newValue : jsval) (s : Slidy) : Slidy :=
  if negb (length (values s) =? 2)%nat then s
  else updateValues (assign 1 newValue (values s)) s.

(* ------------------------------------------------------------------ *)
(** ** The input channels *)

(** The listener that [#createInput(isMax)] puts on its input; [text] is
    [e.target.value].  The filtered text is handed on as it is, a
    string. *)
Definition inputHandler (isMax : bool) (text : string) (s : Slidy) : Slidy :=
  let newValue := JStr (strip_non_digits text) in
  if isMax then updateMax newValue s else updateMin newValue s.

(** [#init] creates both inputs with [#createInput()], that is with
    [isMax = false]. *)
Definition minInput_oninput : string -> Slidy -> Slidy := inputHandler false.
Definition maxInput_oninput : string -> Slidy -> Slidy := inputHandler false.

(** The callback that [#createButton(isMax)] hands to its [Draggable];
    [currentPercentage] is what [updatePosition] reports. *)
Definition dragValue (o : Options) (currentPercentage : Q) : Z :=
  Math_round (min o + (max o - min o) * (currentPercentage / 100)).

Definition dragHandler (isMax : bool) (currentPercentage : Q) (s : Slidy)
  : Slidy :=
  let newValue := JNum (inject_Z (dragValue (options s) currentPercentage)) in
  if isMax then updateMax newValue s else updateMin newValue s.

(** [minButton] is [#createButton()], [maxButton] is
    [#createButton(true)]. *)
Definition minButton_ondrag : Q -> Slidy -> Slidy := dragHandler false.
Definition maxButton_ondrag : Q -> Slidy -> Slidy := dragHandler true.

(** [updatePosition] of the [Draggable] of a button: the raw percentage
    is written to the button's own style hook, then handed to the
    callback.  [parentWidth] is the width of the track, non-zero. *)
Definition set_button_left (isMax : bool) (p : Q) (s : Slidy) : Slidy :=
  if isMax
  then mkSlidy (options s) (values s) (minInput s) (maxInput s)
         (minButton_left s) (Some p) (track_min_left s) (track_max_left s)
  else mkSlidy (options s) (values s) (minInput s) (maxInput s)
         p (maxButton_left s) (track_min_left s) (track_max_left s).

Definition updatePosition (isMax : bool) (parentWidth : Q)
  (d : Draggable.t) (s : Slidy) : Slidy :=
  let locationPercent := Draggable.locationPercent parentWidth d in
  dragHandler isMax locationPercent
    (set_button_left isMax locationPercent s).

(** The [keydown] listener that [#createButton(isMax)] puts on its
    button; [k] is [e.key].  The upper button exists in range mode only,
    so that [values[1]] is inside the array when it is read.  [None]
    when [+] meets a string and a step that has no modelled decimal
    form. *)
Inductive key : Type :=
| ArrowDown | ArrowLeft | ArrowUp | ArrowRight | OtherKey.

Definition keydownHandler (isMax : bool) (k : key) (s : Slidy)
  : option Slidy :=
  let o := options s in
  match k with
  | ArrowDown | ArrowLeft =>
      if isMax
      then Some (updateMax
                   (JNum (sub (at_index 1 (values s)) (JNum (step o)))) s)
      else Some (updateMin
                   (JNum (sub (at_index 0 (values s)) (JNum (step o)))) s)
  | ArrowUp | ArrowRight =>
      if isMax
      then option_map (fun v => updateMax v s)
             (add (at_index 1 (values s)) (step o))
      else option_map (fun v => updateMin v s)
             (add (at_index 0 (values s)) (step o))
  | OtherKey => Some s
  end.

(** The click listener of the segment created for the loop value [i]. *)
Definition segmentClick (i : Q) (s : Slidy) : Slidy :=
  if (length (values s) =? 2)%nat then
    if lt (JNum i) (at_index 1 (values s)) then updateMin (JNum i) s
    else updateMax (JNum i) s
  else updateMin (JNum i) s.

(** The loop of [#init] that creates the segments,
    [for (i = min; i <= max; i += (max - min) / (segmentsCount - 1))]:
    the values of [i] for which a segment is created, in order.  [None]
    when [fuel] iterations do not finish the loop.  ([Qred] puts the
    fraction in lowest terms; it does not change the number.) *)
Fixpoint segmentLoop (fuel : nat) (i hi d : Q) : option (list Q) :=
  match fuel with
  | O => None
  | S fuel' =>
      if Qle_bool i hi then
        match segmentLoop fuel' (Qred (i + d)) hi d with
        | Some l => Some (i :: l)
        | None => None
        end
      else Some []
  end.

Definition segmentBoundaries (fuel : nat) (o : Options) : option (list Q) :=
  match segmentsCount o with
  | None => Some []
  | Some n =>
      if Qeq_bool n 0 then Some []
      else segmentLoop fuel (min o) (max o) ((max o - min o) / (n - 1))
  end.

(* ------------------------------------------------------------------ *)
(** ** Construction *)

(** The [options] argument of the constructor; [None] is a property
    that is absent. *)
Module Arg.
Inductive defaultValue_t : Type :=
| NotArray                       (* any value that is not an array *)
| Arr (l : list jsval).

Record t : Type := mk {
  min : option Q;
  max : option Q;
  step : option Q;
  segmentsCount : option Q;
  defaultValue : option defaultValue_t
}.

(** [{}] *)
Definition empty : t := mk None None None None None.
End Arg.

Inductive outcome : Type :=
| Throw (message : string)
| Built (s : Slidy).

(** [x || d] for an optional number: 0 and an absent property are
    falsy. *)
Definition or_default (x : option Q) (d : Q) : Q :=
  match x with
  | Some q => if Qeq_bool q 0 then d else q
  | None => d
  end.

(** A property written by [...options] after the defaults: a property
    that is present wins. *)
Definition spread (x : option Q) (dflt : Q) : Q :=
  match x with
  | Some q => q
  | None => dflt
  end.

Definition falsy_selector (containerSelector : option string) : bool :=
  match containerSelector with
  | None => true
  | Some EmptyString => true
  | Some _ => false
  end.

Definition bad_defaultValue (a : Arg.t) : bool :=
  match Arg.defaultValue a with
  | None => false
  | Some Arg.NotArray => true
  | Some (Arg.Arr l) => (length l <? 1)%nat || (2 <? length l)%nat
  end.

Definition bad_bounds (a : Arg.t) : bool :=
  match Arg.min a, Arg.max a with
  | Some lo, Some hi => Qle_bool hi lo
  | _, _ => false
  end.

Definition bad_segmentsCount (a : Arg.t) : bool :=
  match Arg.segmentsCount a with
  | Some n => Qlt_bool n 2
  | None => false
  end.

(** The elements of [#init] before the first [updateValues]: empty
    inputs, no style written yet. *)
Definition mounted (o : Options) (vals : list jsval) : Slidy :=
  let range := (length vals =? 2)%nat in
  mkSlidy o vals (JStr "")
    (if range then Some (JStr "") else None)
    0
    (if range then Some 0 else None)
    0 0.

(** [new Slidy(containerSelector, options)]: the four checks, then the
    options with their defaults, then [#init], which ends in
    [updateValues(this.values)]. *)
Definition construct (containerSelector : option string) (a : Arg.t)
  : outcome :=
  if falsy_selector containerSelector then
    Throw "Slidy: containerSelector is required"
  else if bad_defaultValue a then
    Throw "Slidy: defaultValue must be an array of length 1 or 2"
  else if bad_bounds a then
    Throw "Slidy: min must be less than max"
  else if bad_segmentsCount a then
    Throw "Slidy: segmentsCount must be greater than 2"
  else
    let o := mkOptions
               (spread (Arg.min a) (or_default (Arg.min a) 0))
               (spread (Arg.max a) (or_default (Arg.max a) 100))
               (spread (Arg.step a) (or_default (Arg.step a) 1))
               (Arg.segmentsCount a) in
    let vals := match Arg.defaultValue a with
                | Some (Arg.Arr l) => l
                | _ => [JNum 0]
                end in
    Built (updateValues vals (mounted o vals)).

(** The four widgets that [script.js] mounts. *)
Definition slidy_0 : outcome :=
  construct (Some "#slidy_0"%string)
    (Arg.mk (Some 0) (Some 100) (Some 5) None (Some (Arg.Arr [JNum 50]))).
Definition slidy_2 : outcome :=
  construct (Some "#slidy_2"%string)
    (Arg.mk (Some 0) (Some 250) None None
       (Some (Arg.Arr [JNum 50; JNum 80]))).

(* ------------------------------------------------------------------ *)
(** ** Sessions *)

(** One event on a mounted widget: a drag report on a button, a key on
    a button, text in a field, a click on the segment of value [i]. *)
Inductive mutation : Type :=
| Drag (isMax : bool) (currentPercentage : Q)
| Key (isMax : bool) (k : key)
| Text (text : string)
| SegmentClick (i : Q).

Definition apply_mutation (m : mutation) (s : Slidy) : option Slidy :=
  match m with
  | Drag isMax p => Some (dragHandler isMax p s)
  | Key isMax k => keydownHandler isMax k s
  | Text text => Some (minInput_oninput text s)
  | SegmentClick i => Some (segmentClick i s)
  end.



Definition is_num (v : jsval) : Prop :=
  match v with
  | JNum _ => True
  | JStr _ => False
  end.



(** The routine as a description of it would put it, on numbers:
    clamp to [[min, max]], then round to the nearest multiple of the
    step.  It is compared with [normalizeMinMax] below. *)
Definition clamp (o : Options) (x : Q) : Q :=
  if Qlt_bool x (min o) then min o
  else if Qlt_bool (max o) x then max o
  else x.

Definition snap (o : Options) (x : Q) : Q :=
  inject_Z (Math_round (x / step o)) * step o.

(** A count as a number. *)
Definition Qnat (m : nat) : Q := inject_Z (Z.of_nat m).

(* ------------------------------------------------------------------ *)
(** ** Where the rational model is exact *)

(** A whole number of magnitude at most 2^51.  On such numbers the
    operations of the engine -- [+], [-], [%], [/] followed by
    [Math.round], and [*] back -- give in binary64 the results they give
    here, so that what is proved of them is proved of the code. *)
Definition small_integer (q : Q) : bool :=
  (Qden (Qred q) =? 1)%positive && (Z.abs (Qnum (Qred q)) <=? 2 ^ 51)%Z.

Definition integer_options (o : Options) : bool :=
  small_integer (min o) && small_integer (max o) && small_integer (step o).


(** [a === b]: a number and a string are never strictly equal. *)
Definition strict_eq (a b : jsval) : bool :=
  match a, b with
  | JNum p, JNum q => Qeq_bool p q
  | JStr s, JStr t => String.eqb s t
  | _, _ => false
  end.

(* ------------------------------------------------------------------ *)
(** ** Numbers as binary64 *)

(** The arithmetic of JavaScript numbers themselves: IEEE 754 binary64
    with rounding to nearest, ties to even, as [SpecFloat] defines it.
    Every operation computes. *)
Module Double.

Import SpecFloat.

Definition t : Type := spec_float.

Definition prec : Z := 53.
Definition emax : Z := 1024.

Definition zero : t := S754_zero false.

(** The double nearest to a whole number, and to a fraction of whole
    numbers below 2^53 (what a decimal literal denotes). *)
Definition of_Z (n : Z) : t := binary_normalize prec emax n 0 false.

Definition add : t -> t -> t := SFadd prec emax.
Definition sub : t -> t -> t := SFsub prec emax.
Definition mul : t -> t -> t := SFmul prec emax.
Definition div : t -> t -> t := SFdiv prec emax.
Definition ltb : t -> t -> bool := SFltb.
Definition leb : t -> t -> bool := SFleb.
Definition eqb : t -> t -> bool := SFeqb.

Definition of_Q (q : Q) : t := div (of_Z (Qnum q)) (of_Z (Zpos (Qden q))).

(** The exact value of a finite double. *)
Definition to_Q (x : t) : option Q :=
  match x with
  | S754_zero _ => Some 0
  | S754_finite s m e =>
      let n := if s then Zneg m else Zpos m in
      Some (match e with
            | Zneg p => Qmake n (2 ^ p)
            | _ => inject_Z (n * 2 ^ e)
            end)
  | _ => None
  end.

(** [Math.round] as the whole number it returns; [None] on [NaN] and on
    the infinities.  The result is exact: a double with a fraction is
    below 2^52. *)
Definition Math_round (x : t) : option Z :=
  match x with
  | S754_zero _ => Some 0%Z
  | S754_finite s m e =>
      let n := if s then Zneg m else Zpos m in
      Some (match e with
            | Zneg p => (2 * n + 2 ^ Zpos p) / 2 ^ (Zpos p + 1)
            | _ => n * 2 ^ e
            end)%Z
  | _ => None
  end.

(** [Math.round] as a double: a value without a fraction, [NaN] and the
    infinities are returned as they are; a result 0 keeps the sign of
    the argument. *)
Definition Math_round_d (x : t) : t :=
  match x with
  | S754_finite s m (Zneg p) =>
      match Math_round x with
      | Some Z0 => S754_zero s
      | Some r => of_Z r
      | None => x
      end
  | _ => x
  end.

(** [a % b]: exact, with the sign of [a]. *)
Definition rem (a b : t) : t :=
  match a, b with
  | S754_nan, _ | _, S754_nan => S754_nan
  | S754_infinity _, _ => S754_nan
  | _, S754_zero _ => S754_nan
  | _, S754_infinity _ => a
  | S754_zero _, _ => a
  | S754_finite sa ma ea, S754_finite _ mb eb =>
      let e := Z.min ea eb in
      let r := Z.rem (Zpos ma * 2 ^ (ea - e)) (Zpos mb * 2 ^ (eb - e)) in
      if (r =? 0)%Z then S754_zero sa
      else binary_normalize prec emax (if sa then - r else r)%Z e false
  end.

(** [#normalizeMinMax] on numbers. *)
Definition normalizeMinMax (lo hi st value : t) : t :=
  if ltb value lo then lo
  else if ltb hi value then hi
  else if eqb (rem value st) zero then value
  else mul (Math_round_d (div value st)) st.

(** The value that the drag callback rounds, and its rounding. *)
Definition dragValue (lo hi currentPercentage : t) : option Z :=
  Math_round (add lo (mul (sub hi lo) (div currentPercentage (of_Z 100)))).

(** The loop of [#init] with [i += d] on doubles. *)
Fixpoint segmentLoop (fuel : nat) (i hi d : t) : option (list t) :=
  match fuel with
  | O => None
  | S fuel' =>
      if leb i hi then
        match segmentLoop fuel' (add i d) hi d with
        | Some l => Some (i :: l)
        | None => None
        end
      else Some []
  end.

End Double.


(** The segment loop of a widget, on doubles. *)
Definition segmentBoundaries_double (fuel : nat) (o : Options)
  : option (list Double.t) :=
  match segmentsCount o with
  | None => Some []
  | Some n =>
      if Qeq_bool n 0 then Some []
      else Double.segmentLoop fuel (Double.of_Q (min o)) (Double.of_Q (max o))
             (Double.div
                (Double.sub (Double.of_Q (max o)) (Double.of_Q (min o)))
                (Double.sub (Double.of_Q n) (Double.of_Z 1)))
  end.

(** The rational model and the double model of [#normalizeMinMax] give
    the same number at whole numbers [lo], [hi], [st], [v]. *)
Definition normalize_agrees (lo hi st v : Z) : bool :=
  match Double.to_Q (Double.normalizeMinMax (Double.of_Z lo) (Double.of_Z hi)
                       (Double.of_Z st) (Double.of_Z v)) with
  | Some q =>
      Qeq_bool q
        (to_number
           (normalizeMinMax
              (mkOptions (inject_Z lo) (inject_Z hi) (inject_Z st) None)
              (JNum (inject_Z v))))
  | None => false
  end.

Definition Z_range (lo : Z) (n : nat) : list Z :=
  map (fun k => (lo + Z.of_nat k)%Z) (seq 0 n).

(* ------------------------------------------------------------------ *)
(** ** Calls that can throw *)

(** The second input and the second button exist exactly when the
    widget was built with two values. *)
Definition well_mounted (s : Slidy) : Prop :=
  (length (values s) = 1%nat /\ maxInput s = None /\ maxButton_left s = None)
  \/
  (length (values s) = 2%nat /\ maxInput s <> None /\
   maxButton_left s <> None).

Definition present {A : Type} (x : option A) : bool :=
  match x with
  | Some _ => true
  | None => false
  end.

(** [updateValues] with its failure: with two values to store and no
    second input (or button), [this.maxInput.value = ...] is a
    [TypeError]: [None]. *)
Definition updateValues_checked (vals : list jsval) (s : Slidy)
  : option Slidy :=
  let vs := reorder (map (normalizeMinMax (options s)) vals) in
  if (length vs =? 2)%nat
     && negb (present (maxInput s) && present (maxButton_left s))
  then None
  else Some (updateValues vals s).

Definition updateMin_checked (newValue : jsval) (s : Slidy) : option Slidy :=
  updateValues_checked (assign 0 newValue (values s)) s.

Definition updateMax_checked (newValue : jsval) (s : Slidy) : option Slidy :=
  if negb (length (values s) =? 2)%nat then Some s
  else updateValues_checked (assign 1 newValue (values s)) s.

(** What a listener does: every listener of the widget ends in at most
    one call of [#updateMin] or [#updateMax], with some value. *)
Inductive listener_step (s : Slidy) : option Slidy -> Prop :=
| call_updateMin (v : jsval) : listener_step s (updateMin_checked v s)
| call_updateMax (v : jsval) : listener_step s (updateMax_checked v s)
| no_call : listener_step s (Some s).

(** A session of listeners, each run to completion; it ends at the first
    one that throws. *)
Inductive session : Slidy -> option Slidy -> Prop :=
| session_end (s : Slidy) : session s (Some s)
| session_next (s s1 : Slidy) (r : option Slidy) :
    listener_step s (Some s1) -> session s1 r -> session s r
| session_throws (s : Slidy) : listener_step s None -> session s None.

(* ------------------------------------------------------------------ *)
(** ** The constructor in its document *)

(** What [document.querySelector] answers: an element, [null], or a
    [SyntaxError] for a selector that is not valid. *)
Inductive query_result : Type :=
| Found
| NotFound
| InvalidSelector.

(** How [new Slidy(...)] ends. *)
Inductive construction : Type :=
| ConfigError (message : string)   (* one of the four checks *)
| SyntaxError                      (* thrown by [querySelector] *)
| TypeError                        (* [this.container] is [null] in [#init] *)
| Running                          (* the segment loop has not ended *)
| Mounted (s : Slidy) (segments : list Double.t).

(** The constructor with all that it does: the four checks,
    [querySelector], the options and values, then [#init] -- the first
    [appendChild] on the container, the segment loop, [updateValues]. *)
Definition new_Slidy (fuel : nat) (querySelector : string -> query_result)
  (containerSelector : option string) (a : Arg.t) : construction :=
  match construct containerSelector a with
  | Throw message => ConfigError message
  | Built s =>
      match containerSelector with
      | None => ConfigError "Slidy: containerSelector is required"
      | Some selector =>
          match querySelector selector with
          | InvalidSelector => SyntaxError
          | NotFound => TypeError
          | Found =>
              match segmentBoundaries_double fuel (options s) with
              | None => Running
              | Some segments => Mounted s segments
              end
          end
      end
  end.

(** The four conditions under which the constructor raises its own
    errors. *)
Definition config_error (sel : option string) (a : Arg.t) : Prop :=
  (sel = None \/ sel = Some ""%string) \/
  (Arg.defaultValue a = Some Arg.NotArray \/
   exists l, Arg.defaultValue a = Some (Arg.Arr l) /\
             (length l = 0 \/ 2 < length l)%nat) \/
  (exists lo hi, Arg.min a = Some lo /\ Arg.max a = Some hi /\ hi <= lo) \/
  (exists n, Arg.segmentsCount a = Some n /\ n < 2).

(* ------------------------------------------------------------------ *)
(** ** Arithmetic of [Math.round] and [%] *)

Section Arithmetic.

Lemma Qlt_bool_iff (a b : Q) : Qlt_bool a b = true <-> a < b.
Proof.
  unfold Qlt_bool. rewrite negb_true_iff.
  split; intro H.
  - apply Qnot_le_lt. intro Hle.
    apply Qle_bool_iff in Hle. congruence.
  - destruct (Qle_bool b a) eqn:E; [|reflexivity].
    apply Qle_bool_iff in E. exfalso. apply (Qlt_not_le _ _ H E).
Qed.

Lemma Qlt_bool_false_iff (a b : Q) : Qlt_bool a b = false <-> b <= a.
Proof.
  unfold Qlt_bool. rewrite negb_false_iff. apply Qle_bool_iff.
Qed.

Lemma Qle_bool_comp (a b c d : Q) :
  a == b -> c == d -> Qle_bool a c = Qle_bool b d.
Proof.
  intros Hab Hcd.
  destruct (Qle_bool a c) eqn:E1, (Qle_bool b d) eqn:E2; try reflexivity.
  - apply Qle_bool_iff in E1. rewrite Hab, Hcd in E1.
    apply Qle_bool_iff in E1. congruence.
  - apply Qle_bool_iff in E2. rewrite <- Hab, <- Hcd in E2.
    apply Qle_bool_iff in E2. congruence.
Qed.

Lemma trunc_comp (x y : Q) : x == y -> trunc x = trunc y.
Proof.
  intro H. unfold trunc.
  rewrite (Qle_bool_comp 0 0 x y (Qeq_refl 0) H).
  destruct (Qle_bool 0 y).
  - now rewrite H.
  - now rewrite H.
Qed.



(** A number with remainder 0 is an integer multiple of the step. *)
Lemma rem_zero_multiple (a s : Q) :
  rem a s == 0 -> a == inject_Z (trunc (a / s)) * s.
Proof.
  unfold rem. intro H.
  setoid_replace a with (a - s * inject_Z (trunc (a / s))
                         + s * inject_Z (trunc (a / s))) at 1 by ring.
  rewrite H. ring.
Qed.

Lemma rem_comp (a b s : Q) : a == b -> rem a s == rem b s.
Proof.
  intro H. unfold rem.
  assert (E : a / s == b / s) by now rewrite H.
  rewrite (trunc_comp _ _ E), H. reflexivity.
Qed.

Lemma Math_round_comp (x y : Q) : x == y -> Math_round x = Math_round y.
Proof.
  intro H. unfold Math_round. now rewrite H.
Qed.


End Arithmetic.

(* ------------------------------------------------------------------ *)
(** ** The normalization routine *)

Section Normalize.

Variable o : Options.

Lemma lt_num_r (v : jsval) (m : Q) :
  lt v (JNum m) = Qlt_bool (to_number v) m.
Proof. destruct v; reflexivity. Qed.

Lemma gt_num_r (v : jsval) (m : Q) :
  gt v (JNum m) = Qlt_bool m (to_number v).
Proof. destruct v; reflexivity. Qed.

Lemma normalize_below (v : jsval) :
  to_number v < min o -> normalizeMinMax o v = JNum (min o).
Proof.
  intro H. unfold normalizeMinMax.
  rewrite lt_num_r. apply Qlt_bool_iff in H. now rewrite H.
Qed.

Lemma normalize_above (v : jsval) :
  min o <= to_number v -> max o < to_number v ->
  normalizeMinMax o v = JNum (max o).
Proof.
  intros Hlo Hhi. unfold normalizeMinMax.
  rewrite lt_num_r, gt_num_r.
  apply Qlt_bool_false_iff in Hlo. apply Qlt_bool_iff in Hhi.
  now rewrite Hlo, Hhi.
Qed.

Lemma normalize_kept (v : jsval) :
  min o <= to_number v -> to_number v <= max o ->
  rem (to_number v) (step o) == 0 ->
  normalizeMinMax o v = v.
Proof.
  intros Hlo Hhi Hr. unfold normalizeMinMax.
  rewrite lt_num_r, gt_num_r.
  apply Qlt_bool_false_iff in Hlo. apply Qlt_bool_false_iff in Hhi.
  apply Qeq_bool_iff in Hr.
  now rewrite Hlo, Hhi, Hr.
Qed.

Lemma normalize_rounded (v : jsval) :
  min o <= to_number v -> to_number v <= max o ->
  ~ rem (to_number v) (step o) == 0 ->
  normalizeMinMax o v =
  JNum (inject_Z (Math_round (to_number v / step o)) * step o).
Proof.
  intros Hlo Hhi Hr. unfold normalizeMinMax.
  rewrite lt_num_r, gt_num_r.
  apply Qlt_bool_false_iff in Hlo. apply Qlt_bool_false_iff in Hhi.
  rewrite Hlo, Hhi.
  destruct (Qeq_bool (rem (to_number v) (step o)) 0) eqn:E;
    [|reflexivity].
  apply Qeq_bool_iff in E. contradiction.
Qed.

Lemma normalize_cases (v : jsval) :
  normalize_case o v (normalizeMinMax o v).
Proof.
  destruct (Qlt_le_dec (to_number v) (min o)) as [Hlo|Hlo].
  - rewrite (normalize_below v Hlo). now constructor.
  - destruct (Qlt_le_dec (max o) (to_number v)) as [Hhi|Hhi].
    + rewrite (normalize_above v Hlo Hhi). now constructor.
    + destruct (Qeq_dec (rem (to_number v) (step o)) 0) as [Hr|Hr].
      * rewrite (normalize_kept v Hlo Hhi Hr). now constructor.
      * rewrite (normalize_rounded v Hlo Hhi Hr). now constructor.
Qed.



End Normalize.

(* ------------------------------------------------------------------ *)
(** ** Properties of the normalization routine *)

(** C1.  The result of [#normalizeMinMax] is meant to lie in
    [[min, max]].  The code clamps first and rounds to the step
    afterwards, and the rounding can leave the interval: with [min = 0],
    [max = 10], [step = 4] the value 10 passes both clamps, has
    remainder 2, and is replaced by [Math.round(2.5) * 4 = 12], which is
    above [max].  With [min = 1], [max = 10], [step = 5] the value 1
    becomes 0, which is below [min]. *)
Theorem normalize_rounds_out_of_range :
  let o := mkOptions 0 10 4 None in
  let o' := mkOptions 1 10 5 None in
  (min o < max o /\ 0 < step o /\
   normalizeMinMax o (JNum 10) = JNum 12 /\
   ~ to_number (normalizeMinMax o (JNum 10)) <= max o) /\
  (min o' < max o' /\ 0 < step o' /\
   normalizeMinMax o' (JNum 1) = JNum 0 /\
   ~ min o' <= to_number (normalizeMinMax o' (JNum 1))).
Proof.
  cbv zeta. repeat split; try reflexivity.
  - vm_compute. intro H. apply H. reflexivity.
  - vm_compute. intro H. apply H. reflexivity.
Qed.







(* ------------------------------------------------------------------ *)
(** ** Storing values: [updateValues], [#updateMin], [#updateMax] *)

Section Update.

Lemma values_updateValues (vals : list jsval) (s : Slidy) :
  values (updateValues vals s) =
  reorder (map (normalizeMinMax (options s)) vals).
Proof. reflexivity. Qed.

Lemma options_updateValues (vals : list jsval) (s : Slidy) :
  options (updateValues vals s) = options s.
Proof. reflexivity. Qed.

Lemma reorder_length (vs : list jsval) : length (reorder vs) = length vs.
Proof.
  unfold reorder.
  destruct ((length vs =? 2)%nat && gt (at_index 0 vs) (at_index 1 vs));
    [|reflexivity].
  destruct vs as [|temp rest]; [reflexivity|].
  rewrite length_app. simpl. lia.
Qed.

Lemma reorder_single (v : jsval) : reorder [v] = [v].
Proof. reflexivity. Qed.

Lemma reorder_pair (a b : jsval) :
  reorder [a; b] = if gt a b then [b; a] else [a; b].
Proof. unfold reorder, at_index. simpl. destruct (gt a b); reflexivity. Qed.

Lemma reorder_In (x : jsval) (vs : list jsval) :
  In x vs -> In x (reorder vs).
Proof.
  unfold reorder.
  destruct ((length vs =? 2)%nat && gt (at_index 0 vs) (at_index 1 vs));
    [|trivial].
  destruct vs as [|temp rest]; [trivial|].
  intros [H|H]; apply in_or_app.
  - right. left. exact H.
  - left. exact H.
Qed.

(** The mode never changes: every update keeps the number of slots. *)
Lemma updateValues_length (vals : list jsval) (s : Slidy) :
  length (values (updateValues vals s)) = length vals.
Proof.
  rewrite values_updateValues, reorder_length. apply length_map.
Qed.

Lemma assign_0_head (v : jsval) (l : list jsval) :
  exists t, assign 0 v l = v :: t.
Proof. destruct l as [|h t]; [exists []|exists t]; reflexivity. Qed.

(** Splits a goal about [normalizeMinMax] along its three tests. *)
Ltac normalize_branches :=
  unfold normalizeMinMax;
  destruct (lt _ _);
  [|destruct (gt _ _); [|destruct (Qeq_bool _ _)]].

Lemma normalize_number (o : Options) (q : Q) :
  exists r, normalizeMinMax o (JNum q) = JNum r.
Proof. normalize_branches; eauto. Qed.

Lemma normalize_wf (o : Options) (v : jsval) :
  wf v -> wf (normalizeMinMax o v).
Proof. intro H. normalize_branches; solve [exact I | exact H]. Qed.

Lemma reorder_Forall (P : jsval -> Prop) (vs : list jsval) :
  Forall P vs -> Forall P (reorder vs).
Proof.
  unfold reorder.
  destruct ((length vs =? 2)%nat && gt (at_index 0 vs) (at_index 1 vs));
    [|trivial].
  destruct vs as [|temp rest]; [trivial|].
  intro H. inversion H as [|x l Hx Hl]; subst.
  apply Forall_app. split; [exact Hl | now constructor].
Qed.

(** Numbers and digit strings are all that is ever stored, as long as
    numbers and digit strings are all that is submitted. *)
Lemma updateValues_wf (vals : list jsval) (s : Slidy) :
  Forall wf vals -> Forall wf (values (updateValues vals s)).
Proof.
  intro H. rewrite values_updateValues. apply reorder_Forall.
  induction H as [|v l Hv Hl IH]; simpl; constructor.
  - now apply normalize_wf.
  - exact IH.
Qed.


(** Normalization looks at a value only through its number. *)
Lemma normalize_to_number_comp (o : Options) (v w : jsval) :
  to_number v == to_number w ->
  to_number (normalizeMinMax o v) == to_number (normalizeMinMax o w).
Proof.
  intro H. unfold normalizeMinMax.
  rewrite !lt_num_r, !gt_num_r. unfold Qlt_bool.
  rewrite (Qle_bool_comp (min o) (min o) _ _ (Qeq_refl _) H).
  destruct (negb (Qle_bool (min o) (to_number w))); [reflexivity|].
  rewrite (Qle_bool_comp _ _ (max o) (max o) H (Qeq_refl _)).
  destruct (negb (Qle_bool (to_number w) (max o))); [reflexivity|].
  assert (R : Qeq_bool (rem (to_number v) (step o)) 0 =
              Qeq_bool (rem (to_number w) (step o)) 0).
  { pose proof (rem_comp _ _ (step o) H) as Hr.
    destruct (Qeq_bool (rem (to_number v) (step o)) 0) eqn:E1,
             (Qeq_bool (rem (to_number w) (step o)) 0) eqn:E2;
      try reflexivity.
    - apply Qeq_bool_iff in E1. rewrite Hr in E1.
      apply Qeq_bool_iff in E1. congruence.
    - apply Qeq_bool_iff in E2. rewrite <- Hr in E2.
      apply Qeq_bool_iff in E2. congruence. }
  rewrite R.
  destruct (Qeq_bool (rem (to_number w) (step o)) 0); [exact H|].
  simpl.
  assert (D : to_number v / step o == to_number w / step o)
    by now rewrite H.
  rewrite (Math_round_comp _ _ D). reflexivity.
Qed.

End Update.

(* ------------------------------------------------------------------ *)
(** ** The text filter *)

Section TextFilter.

Lemma strip_non_digits_filter (text : string) :
  list_ascii_of_string (strip_non_digits text) =
  filter is_digit (list_ascii_of_string text).
Proof.
  induction text as [|c t IH]; [reflexivity|].
  simpl. destruct (is_digit c); simpl; now rewrite IH.
Qed.

Lemma strip_non_digits_digit_string (text : string) :
  digit_string (strip_non_digits text) = true.
Proof.
  induction text as [|c t IH]; [reflexivity|].
  simpl. destruct (is_digit c) eqn:E; [|exact IH].
  simpl. now rewrite E, IH.
Qed.

End TextFilter.

(* ------------------------------------------------------------------ *)
(** ** The keyboard channel and the segment loop *)

Section Channels.

(** On numbers an arrow key moves the lower value by exactly one step
    before it is normalized. *)
Lemma keydown_numbers (q : Q) (rest : list jsval) (s : Slidy) :
  values s = JNum q :: rest ->
  keydownHandler false ArrowDown s =
    Some (updateMin (JNum (q - step (options s))) s) /\
  keydownHandler false ArrowUp s =
    Some (updateMin (JNum (q + step (options s))) s).
Proof.
  intro H. unfold keydownHandler. rewrite H. split; reflexivity.
Qed.

(** A decrement at the floor stays at the floor: on [#slidy_0] with the
    value brought to 0, [ArrowDown] stores 0 again. *)
Lemma keydown_decrement_at_floor :
  exists s0 s1,
    slidy_0 = Built s0 /\
    values (updateMin (JNum 0) s0) = [JNum 0] /\
    keydownHandler false ArrowDown (updateMin (JNum 0) s0) = Some s1 /\
    values s1 = [JNum 0].
Proof.
  eexists. eexists. split; [reflexivity|].
  split; [reflexivity|]. split; reflexivity.
Qed.

Lemma segmentLoop_S (n : nat) (i hi d : Q) :
  segmentLoop (S n) i hi d =
  if Qle_bool i hi
  then match segmentLoop n (Qred (i + d)) hi d with
       | Some l => Some (i :: l)
       | None => None
       end
  else Some [].
Proof. reflexivity. Qed.

(** More fuel does not change what the segment loop returns. *)
Lemma segmentLoop_more_fuel (fuel : nat) (i hi d : Q) (l : list Q) :
  segmentLoop fuel i hi d = Some l ->
  segmentLoop (S fuel) i hi d = Some l.
Proof.
  revert i l. induction fuel as [|n IH]; intros i l H; [discriminate|].
  rewrite segmentLoop_S in H. rewrite (segmentLoop_S (S n)).
  destruct (Qle_bool i hi); [|exact H].
  destruct (segmentLoop n (Qred (i + d)) hi d) as [l'|] eqn:E.
  - now rewrite (IH _ _ E).
  - discriminate.
Qed.

(** Every value the loop returns is at most the upper bound. *)
Lemma segmentLoop_bounded (fuel : nat) (i hi d : Q) (l : list Q) :
  segmentLoop fuel i hi d = Some l -> Forall (fun x => x <= hi) l.
Proof.
  revert i l. induction fuel as [|n IH]; intros i l H; [discriminate|].
  rewrite segmentLoop_S in H. destruct (Qle_bool i hi) eqn:Ei.
  - destruct (segmentLoop n (Qred (i + d)) hi d) as [l'|] eqn:E.
    + injection H as <-. constructor.
      * now apply Qle_bool_iff.
      * exact (IH _ _ E).
    + discriminate.
  - injection H as <-. constructor.
Qed.

End Channels.

(* ------------------------------------------------------------------ *)
(** ** Ordering of the pair *)

(** C4.  The claim's scenario holds: on the widget [#slidy_2]
    ([min = 0], [max = 250], values [[50, 80]]) the number 90 submitted
    to the lower slot gives [[80, 90]], by a swap.  The invariant
    [values[0] <= values[1]] does not hold after every mutation, though:
    the text channel stores strings, and two strings are compared
    lexicographically.  Text ["90"] gives [[80, "90"]]; text ["100"]
    after it gives [["100", "90"]], which is left as it is because
    ["100" > "90"] is false for strings: the lower slot then holds 100,
    the upper slot 90, and the lower handle stands at 40%, to the right
    of the upper handle at 36%. *)
Theorem text_input_leaves_pair_out_of_order :
  exists s0 : Slidy,
    slidy_2 = Built s0 /\
    values s0 = [JNum 50; JNum 80] /\
    values (updateMin (JNum 90) s0) = [JNum 80; JNum 90] /\
    values (minInput_oninput "90" s0) = [JNum 80; JStr "90"] /\
    let s2 := minInput_oninput "100" (minInput_oninput "90" s0) in
    values s2 = [JStr "100"; JStr "90"] /\
    to_number (at_index 1 (values s2)) < to_number (at_index 0 (values s2)) /\
    minButton_left s2 == 40 /\
    exists upper, maxButton_left s2 = Some upper /\ upper == 36.
Proof.
  eexists. split; [reflexivity|].
  repeat split.
  eexists. split; reflexivity.
Qed.

(* ------------------------------------------------------------------ *)
(** ** The drag channel *)




(* ------------------------------------------------------------------ *)
(** ** The text channel *)

(** What the text channel does with a text: it submits the text with
    every character that is not a decimal digit removed, a digit string,
    to [#updateMin], from either field.  A text with no digit in it
    submits the empty string, which counts as the number 0 in the
    clamps, and the value then stored has the number of [normalize(0)]
    (it is equal to it as [==] compares them). *)
Lemma text_input_filtered_and_empty_is_zero (text : string) (s : Slidy) :
  ~ step (options s) == 0 ->
  let o := options s in
  let submitted := JStr (strip_non_digits text) in
  let zero := normalizeMinMax o (JNum 0) in
  list_ascii_of_string (strip_non_digits text) =
    filter is_digit (list_ascii_of_string text) /\
  wf submitted /\
  (minInput_oninput text s = updateMin submitted s /\
   maxInput_oninput text s = updateMin submitted s) /\
  (forall v, values s = [v] ->
     values (minInput_oninput text s) = [normalizeMinMax o submitted]) /\
  (filter is_digit (list_ascii_of_string text) = [] ->
     submitted = JStr "" /\
     to_number submitted == 0 /\
     Exists (fun x => loose_eq x zero = true /\ to_number x == to_number zero)
            (values (minInput_oninput text s)) /\
     (forall v, values s = [v] ->
        exists x, values (minInput_oninput text s) = [x] /\
                  loose_eq x zero = true /\
                  to_number x == to_number zero)).
Proof.
  intros _ o submitted zero.
  assert (Hsingle : forall v, values s = [v] ->
            values (minInput_oninput text s) = [normalizeMinMax o submitted]).
  { intros v Hv. unfold minInput_oninput, inputHandler, updateMin.
    rewrite values_updateValues, Hv. reflexivity. }
  split; [apply strip_non_digits_filter|].
  split; [apply strip_non_digits_digit_string|].
  split; [split; reflexivity|].
  split; [exact Hsingle|].
  intro Hempty.
  assert (Hsub : submitted = JStr "").
  { unfold submitted. f_equal.
    rewrite <- (string_of_list_ascii_of_string (strip_non_digits text)).
    now rewrite strip_non_digits_filter, Hempty. }
  assert (Hnum : to_number (normalizeMinMax o submitted) == to_number zero).
  { apply normalize_to_number_comp. rewrite Hsub. reflexivity. }
  assert (Hloose : loose_eq (normalizeMinMax o submitted) zero = true).
  { revert Hnum. unfold zero.
    destruct (normalize_number o 0) as [z ->]. intro Hnum.
    destruct (normalizeMinMax o submitted); now apply Qeq_bool_iff. }
  split; [exact Hsub|].
  split; [rewrite Hsub; reflexivity|].
  split.
  - apply Exists_exists. exists (normalizeMinMax o submitted).
    split; [|split; [exact Hloose | exact Hnum]].
    unfold minInput_oninput, inputHandler, updateMin.
    rewrite values_updateValues. apply reorder_In.
    destruct (assign_0_head submitted (values s)) as [t Ht].
    unfold submitted in Ht |- *. rewrite Ht. left. reflexivity.
  - intros v Hv. exists (normalizeMinMax o submitted).
    split; [now apply (Hsingle v)|split; [exact Hloose | exact Hnum]].
Qed.

(** C7.  The text is filtered to its digits, but it is never parsed:
    what is submitted and stored is a string.  On [#slidy_0] ([min = 0],
    [max = 100], [step = 5], value 50) an input event whose text has no
    digit stores the empty string and writes it back to the field, where
    [normalize(0)] is the number 0: the stored value is not [normalize(0)]
    ([===] is false), though it counts as 0 wherever the engine computes
    with it.  A text of digits in range and on the grid is stored as
    typed: ["040"] stays the string ["040"]. *)
Theorem text_input_empty_stores_empty_string :
  exists s0 : Slidy,
    slidy_0 = Built s0 /\
    values s0 = [JNum 50] /\
    let s1 := minInput_oninput "" s0 in
    strip_non_digits "a-b" = ""%string /\
    minInput_oninput "a-b" s0 = s1 /\
    values s1 = [JStr ""] /\
    minInput s1 = JStr "" /\
    normalizeMinMax (options s0) (JNum 0) = JNum 0 /\
    strict_eq (at_index 0 (values s1)) (normalizeMinMax (options s0) (JNum 0))
      = false /\
    loose_eq (at_index 0 (values s1)) (normalizeMinMax (options s0) (JNum 0))
      = true /\
    values (minInput_oninput "040" s0) = [JStr "040"].
Proof.
  eexists. split; [reflexivity|]. repeat split.
Qed.

(* ------------------------------------------------------------------ *)
(** ** [#updateMax] in single-value mode *)

(** C10.  With one stored value, [#updateMax] returns at its guard: the
    state after it -- stored values, both inputs, every style hook -- is
    the state before it, whatever the value submitted; so is the state
    after a drag of the upper handle. *)
Theorem updateMax_single_mode_noop (s : Slidy) (newValue : jsval) (p : Q) :
  length (values s) = 1%nat ->
  updateMax newValue s = s /\ maxButton_ondrag p s = s.
Proof.
  intro H. unfold maxButton_ondrag, dragHandler, updateMax.
  rewrite H. split; reflexivity.
Qed.

Lemma updateMax_single_mode_noop_witness :
  let s := updateValues [JNum 50] (mounted (mkOptions 0 100 5 None) [JNum 50]) in
  updateMax (JNum 70) s = s /\ maxButton_ondrag 70 s = s.
Proof.
  intro s. apply (updateMax_single_mode_noop s (JNum 70) 70). reflexivity.
Defined.

(* ------------------------------------------------------------------ *)
(** ** Segment clicks *)




(* ------------------------------------------------------------------ *)
(** ** Construction *)

(** The constructor throws exactly when one of its four checks fires. *)
Lemma construct_throws_iff (containerSelector : option string) (a : Arg.t) :
  (exists message, construct containerSelector a = Throw message) <->
  falsy_selector containerSelector = true \/ bad_defaultValue a = true \/
  bad_bounds a = true \/ bad_segmentsCount a = true.
Proof.
  unfold construct.
  destruct (falsy_selector containerSelector);
    [split; [auto | intros _; eauto]|].
  destruct (bad_defaultValue a); [split; [auto | intros _; eauto]|].
  destruct (bad_bounds a); [split; [auto | intros _; eauto]|].
  destruct (bad_segmentsCount a); [split; [auto 6 | intros _; eauto]|].
  split.
  - intros [m H]. discriminate.
  - intros [H|[H|[H|H]]]; discriminate.
Qed.

(** The check on the bounds looks at the two properties as supplied,
    and only when both are. *)
Lemma bad_bounds_iff (a : Arg.t) :
  bad_bounds a = true <->
  exists lo hi, Arg.min a = Some lo /\ Arg.max a = Some hi /\ hi <= lo.
Proof.
  unfold bad_bounds. destruct (Arg.min a) as [lo|], (Arg.max a) as [hi|].
  - rewrite Qle_bool_iff. split.
    + intro H. now exists lo, hi.
    + intros (lo' & hi' & [= <-] & [= <-] & H). exact H.
  - split; [discriminate|]. intros (? & ? & _ & [=] & _).
  - split; [discriminate|]. intros (? & ? & [=] & _).
  - split; [discriminate|]. intros (? & ? & [=] & _).
Qed.

(** C6.  The constructor is to throw whenever [min >= max], also when
    one of the two is a default.  The code compares them only when both
    are supplied: [new Slidy('#slidy', { min: 200 })] is built, with
    [min = 200] and the default [max = 100]; so is
    [new Slidy('#slidy', { max: -5 })], with the default [min = 0]. *)
Theorem construct_accepts_inverted_default_bounds :
  (exists s, construct (Some "#slidy"%string)
               (Arg.mk (Some 200) None None None None) = Built s /\
             min (options s) = 200 /\ max (options s) = 100 /\
             max (options s) <= min (options s)) /\
  (exists s, construct (Some "#slidy"%string)
               (Arg.mk None (Some (-5)) None None None) = Built s /\
             min (options s) = 0 /\ max (options s) = -5 /\
             max (options s) <= min (options s)).
Proof.
  split; eexists; (split; [reflexivity|]); repeat split; discriminate.
Qed.

(* ------------------------------------------------------------------ *)
(** ** The drag gesture *)

(** C9, as stated, fails in its last part: with an element of width 0
    and the pointer at [pageX = 5], the offset of a move while dragging
    is 5, not 0. *)
Lemma zero_width_offset_is_not_zero :
  let d := Draggable.handleMouseMove 5 0 (Draggable.mk true 0) in
  Draggable.currentX d = 5 /\ ~ Draggable.currentX d == 0.
Proof.
  cbv zeta. split; [reflexivity|]. vm_compute. discriminate.
Qed.

(** C9, amended.  A pointer-move while dragging always yields a state --
    there is no failing path -- in which the drag goes on and the offset
    is the pointer's absolute X minus the element's width; when the
    width is 0 the offset is the pointer's X itself, and the offset is 0
    exactly when the pointer's X equals the width. *)
Theorem handleMouseMove_offset (pageX width : Q) (d : Draggable.t) :
  Draggable.isDragging d = true ->
  let d' := Draggable.handleMouseMove pageX width d in
  d' = Draggable.mk true (pageX - width) /\
  (width == 0 -> Draggable.currentX d' == pageX) /\
  (Draggable.currentX d' == 0 <-> pageX == width).
Proof.
  intros H d'. unfold d', Draggable.handleMouseMove. rewrite H. simpl.
  split; [reflexivity|]. split.
  - intro Hw. rewrite Hw. ring.
  - split; intro E; lra.
Qed.

Lemma handleMouseMove_offset_witness :
  let d' := Draggable.handleMouseMove 120 20
              (Draggable.handleMouseDown Draggable.init) in
  d' = Draggable.mk true (120 - 20) /\
  (Draggable.currentX d' == 0 <-> 120 == 20).
Proof.
  destruct (handleMouseMove_offset 120 20
              (Draggable.handleMouseDown Draggable.init) eq_refl)
    as (H1 & _ & H3).
  split; [exact H1 | exact H3].
Defined.

(* ------------------------------------------------------------------ *)
(** * Further properties of the code *)

(* ------------------------------------------------------------------ *)
(** ** A drag session *)

Section DragSession.

Import Draggable.

Lemma run_app (d : t) (es fs : list event) :
  run d (es ++ fs) = run (run d es) fs.
Proof. unfold run. apply fold_left_app. Qed.

Lemma run_moves_idle (d : t) (ms : list event) :
  isDragging d = false -> Forall is_move ms -> run d ms = d.
Proof.
  intros Hd H. induction H as [|e l He Hl IH]; [reflexivity|].
  destruct e; try contradiction.
  unfold run in *. simpl. unfold handleMouseMove. rewrite Hd. simpl.
  exact IH.
Qed.

Lemma run_moves_dragging (d : t) (ms : list event) :
  isDragging d = true -> Forall is_move ms ->
  isDragging (run d ms) = true.
Proof.
  intros Hd H. revert d Hd.
  induction H as [|e l He Hl IH]; intros d Hd; [exact Hd|].
  destruct e; try contradiction.
  unfold run in *. simpl. apply IH.
  unfold handleMouseMove. rewrite Hd. reflexivity.
Qed.

(** X1.  Once the button is released, pointer moves change nothing:
    whatever happened before, after a [mouseup] followed by any number
    of moves the gesture is not dragging and its offset is the one it
    had at the release. *)
Theorem moves_after_release_ignored (d : t) (es ms : list event) :
  Forall is_move ms ->
  run d (es ++ MouseUp :: ms) = handleMouseUp (run d es) /\
  isDragging (run d (es ++ MouseUp :: ms)) = false /\
  currentX (run d (es ++ MouseUp :: ms)) = currentX (run d es).
Proof.
  intro H.
  assert (E : run d (es ++ MouseUp :: ms) = handleMouseUp (run d es)).
  { rewrite run_app. change (run (run d es) (MouseUp :: ms))
      with (run (handleMouseUp (run d es)) ms).
    now apply run_moves_idle. }
  rewrite E. now repeat split.
Qed.

Lemma moves_after_release_ignored_witness :
  currentX (run init [MouseDown; MouseMove 120 20; MouseUp;
                      MouseMove 300 20; MouseMove 7 20])
  = currentX (run init [MouseDown; MouseMove 120 20]).
Proof.
  apply (moves_after_release_ignored init
           [MouseDown; MouseMove 120 20]
           [MouseMove 300 20; MouseMove 7 20]).
  repeat constructor.
Defined.

(** X2.  While the button is held the last move wins: after a
    [mousedown], any number of moves and one more move at [pageX] over
    an element of width [width], the gesture is dragging and its offset
    is [pageX - width], whatever the earlier events were. *)
Theorem last_move_wins (d : t) (es ms : list event) (pageX width : Q) :
  Forall is_move ms ->
  run d (es ++ MouseDown :: ms ++ [MouseMove pageX width]) =
  mk true (pageX - width).
Proof.
  intro H. rewrite run_app.
  change (run (run d es) (MouseDown :: ms ++ [MouseMove pageX width]))
    with (run (handleMouseDown (run d es)) (ms ++ [MouseMove pageX width])).
  rewrite run_app.
  pose proof (run_moves_dragging (handleMouseDown (run d es)) ms
                eq_refl H) as Hdrag.
  unfold run at 1. simpl. unfold handleMouseMove. rewrite Hdrag.
  reflexivity.
Qed.

Lemma last_move_wins_witness :
  run init [MouseMove 1 2; MouseDown; MouseMove 50 20; MouseMove 120 20]
  = mk true (120 - 20).
Proof.
  apply (last_move_wins init [MouseMove 1 2] [MouseMove 50 20] 120 20).
  repeat constructor.
Defined.

End DragSession.

(* ------------------------------------------------------------------ *)
(** ** What the text filter lets through *)

Section TextChannel.

Lemma strip_non_digits_fixed (text : string) :
  digit_string text = true -> strip_non_digits text = text.
Proof.
  induction text as [|c t IH]; [reflexivity|].
  simpl. intro H. apply andb_true_iff in H. destruct H as [Hc Ht].
  rewrite Hc. now rewrite (IH Ht).
Qed.

(** X3.  Filtering is idempotent and leaves a digit string as it is:
    the filter removes nothing but characters outside [0-9]. *)
Theorem strip_non_digits_idempotent (text : string) :
  strip_non_digits (strip_non_digits text) = strip_non_digits text /\
  (digit_string text = true <-> strip_non_digits text = text).
Proof.
  split.
  - apply strip_non_digits_fixed, strip_non_digits_digit_string.
  - split; [apply strip_non_digits_fixed|].
    intro H. rewrite <- H. apply strip_non_digits_digit_string.
Qed.

Lemma digit_value_nonneg (c : ascii) :
  is_digit c = true -> (0 <= digit_value c <= 9)%Z.
Proof.
  unfold is_digit, digit_value. intro H.
  apply andb_true_iff in H. destruct H as [H1 H2].
  apply Nat.leb_le in H1. apply Nat.leb_le in H2. lia.
Qed.

Lemma digits_from_nonneg (s : string) (acc : Z) :
  digit_string s = true -> (0 <= acc)%Z -> (acc <= digits_from acc s)%Z.
Proof.
  revert acc. induction s as [|c t IH]; intros acc H Hacc.
  - simpl. lia.
  - change (digits_from acc (String c t))
      with (digits_from (10 * acc + digit_value c) t).
    simpl in H. apply andb_true_iff in H. destruct H as [Hc Ht].
    pose proof (digit_value_nonneg c Hc) as Hd.
    assert (Hn : (0 <= 10 * acc + digit_value c)%Z) by lia.
    pose proof (IH _ Ht Hn). lia.
Qed.

Lemma stripped_number_nonneg (text : string) :
  0 <= to_number (JStr (strip_non_digits text)).
Proof.
  simpl. change 0 with (inject_Z 0). rewrite <- Zle_Qle.
  apply digits_from_nonneg; [apply strip_non_digits_digit_string | lia].
Qed.

(** X4.  No text submits a negative number: a minus sign is stripped
    with every other character that is not a digit, so the number of
    the value that a text event hands to [#updateMin] is at least 0. *)
Theorem text_input_never_negative (text : string) (s : Slidy) :
  exists submitted,
    minInput_oninput text s = updateMin submitted s /\
    maxInput_oninput text s = updateMin submitted s /\
    0 <= to_number submitted.
Proof.
  exists (JStr (strip_non_digits text)).
  split; [reflexivity|]. split; [reflexivity|].
  apply stripped_number_nonneg.
Qed.

(** X5.  Hence a text event on a widget whose upper bound is negative
    always stores that bound in the lower slot before the pair is
    ordered: in single-value mode the stored value is [max], whatever
    was typed. *)
Theorem text_input_negative_range (text : string) (s : Slidy) (v : jsval) :
  values s = [v] ->
  min (options s) <= max (options s) -> max (options s) < 0 ->
  values (minInput_oninput text s) = [JNum (max (options s))].
Proof.
  intros Hv Hmm Hneg.
  unfold minInput_oninput, inputHandler, updateMin.
  rewrite values_updateValues, Hv. simpl map. rewrite reorder_single.
  f_equal. pose proof (stripped_number_nonneg text) as H0.
  revert H0. generalize (JStr (strip_non_digits text)) as w. intros w H0.
  apply normalize_above; lra.
Qed.

Lemma text_input_negative_range_witness :
  let s := updateValues [JNum (-50)]
             (mounted (mkOptions (-100) (-10) 5 None) [JNum (-50)]) in
  values (minInput_oninput "-50" s) = [JNum (-10)].
Proof.
  intro s.
  apply (text_input_negative_range "-50" s (JNum (-50)));
    [reflexivity | unfold Qle; simpl; lia | reflexivity].
Defined.

End TextChannel.

(* ------------------------------------------------------------------ *)
(** ** More about the normalization routine *)

Section NormalizeMore.

Variable o : Options.


Lemma Math_round_near (y : Q) :
  y - (1 # 2) < inject_Z (Math_round y) /\
  inject_Z (Math_round y) <= y + (1 # 2).
Proof.
  unfold Math_round. split.
  - pose proof (Qlt_floor (y + (1 # 2))) as H.
    rewrite inject_Z_plus in H. change (inject_Z 1) with 1 in H.
    revert H. generalize (inject_Z (Qfloor (y + (1 # 2)))). intros z H.
    lra.
  - apply Qfloor_le.
Qed.

(** X7.  On whole numbers ([min], [max], a positive [step] and the
    proposed value whole, of magnitude at most 2^51) a value inside
    [[min, max]] is moved by at most half a step: the result is above
    [v - step/2] and at most [v + step/2].  So with [min <= max] the
    result never leaves [[min - step/2, max + step/2]]. *)
Theorem normalize_within_half_step (v : jsval) :
  wf v -> small_integer (to_number v) = true ->
  integer_options o = true -> 0 < step o -> min o <= max o ->
  (min o <= to_number v -> to_number v <= max o ->
   to_number v - step o / 2 < to_number (normalizeMinMax o v) /\
   to_number (normalizeMinMax o v) <= to_number v + step o / 2) /\
  min o - step o / 2 <= to_number (normalizeMinMax o v) /\
  to_number (normalizeMinMax o v) <= max o + step o / 2.
Proof.
  intros _ _ _ Hs Hmm.
  assert (Hhalf : 0 < step o / 2).
  { apply Qlt_shift_div_l; lra. }
  assert (R : forall x, min o <= x -> x <= max o ->
            x - step o / 2 < inject_Z (Math_round (x / step o)) * step o /\
            inject_Z (Math_round (x / step o)) * step o <= x + step o / 2).
  { intros x _ _.
    destruct (Math_round_near (x / step o)) as [Hlo Hhi].
    assert (E : x == x / step o * step o) by (field; lra).
    revert Hlo Hhi.
    generalize (inject_Z (Math_round (x / step o))). intros z Hlo Hhi.
    assert (E1 : (x / step o - (1 # 2)) * step o == x - step o / 2)
      by (field; lra).
    assert (E2 : (x / step o + (1 # 2)) * step o == x + step o / 2)
      by (field; lra).
    split.
    - rewrite <- E1. apply Qmult_lt_compat_r; assumption.
    - rewrite <- E2. apply Qmult_le_compat_r; [assumption | lra]. }
  split.
  - intros Hlo Hhi.
    destruct (Qeq_dec (rem (to_number v) (step o)) 0) as [Hr|Hr].
    + rewrite (normalize_kept o v Hlo Hhi Hr). split; lra.
    + rewrite (normalize_rounded o v Hlo Hhi Hr). simpl to_number.
      now apply R.
  - destruct (normalize_cases o v) as [H|H1 H2|H1 H2 H3|H1 H2 H3];
      simpl to_number.
    + split; lra.
    + split; lra.
    + split; lra.
    + destruct (R _ H1 H2). split; lra.
Qed.


End NormalizeMore.


Lemma normalize_within_half_step_witness :
  let o := mkOptions 0 10 4 None in
  min o - step o / 2 <= to_number (normalizeMinMax o (JNum 10)) /\
  to_number (normalizeMinMax o (JNum 10)) <= max o + step o / 2.
Proof.
  apply (normalize_within_half_step (mkOptions 0 10 4 None) (JNum 10));
    [exact I | reflexivity | reflexivity | reflexivity
     | unfold Qle; simpl; lia].
Defined.

(* ------------------------------------------------------------------ *)
(** ** The ordering step *)

Section Ordering.

Lemma lt_asym (a b : jsval) : lt a b = true -> lt b a = false.
Proof.
  destruct a as [p|s], b as [q|t]; simpl;
    try (intro H; apply Qlt_bool_iff in H; apply Qlt_bool_false_iff;
         now apply Qlt_le_weak).
  unfold String.ltb. rewrite (String.compare_antisym t s).
  destruct (String.compare s t); simpl; congruence.
Qed.

(** X8.  After [updateValues] on a pair of numbers or digit strings,
    with a step that is not 0, the test of the code itself,
    [values[0] > values[1]], is false, and the two stored values are in
    numeric order as soon as one of them is a number: only two strings
    can be stored out of numeric order. *)
Theorem updateValues_pair_ordered (a b : jsval) (s : Slidy) :
  wf a -> wf b -> ~ step (options s) == 0 ->
  exists x y,
    values (updateValues [a; b] s) = [x; y] /\
    gt x y = false /\
    (is_num x \/ is_num y -> to_number x <= to_number y).
Proof.
  intros _ _ _.
  rewrite values_updateValues. simpl map. rewrite reorder_pair.
  set (na := normalizeMinMax (options s) a).
  set (nb := normalizeMinMax (options s) b).
  assert (Num : forall x y, gt x y = false -> is_num x \/ is_num y ->
                to_number x <= to_number y).
  { intros x y Hg Hn. unfold gt in Hg.
    destruct x as [p|u], y as [q|t]; simpl in *;
      try (now apply Qlt_bool_false_iff in Hg).
    destruct Hn as [[]|[]]. }
  destruct (gt na nb) eqn:E.
  - exists nb, na. split; [reflexivity|].
    assert (G : gt nb na = false) by (unfold gt in *; now apply lt_asym).
    split; [exact G|]. now apply Num.
  - exists na, nb. split; [reflexivity|].
    split; [exact E|]. now apply Num.
Qed.

Lemma updateValues_pair_ordered_witness :
  exists x y,
    values (updateValues [JStr "90"; JNum 80]
              (mounted (mkOptions 0 250 1 None) [JNum 50; JNum 80]))
      = [x; y] /\
    gt x y = false /\
    (is_num x \/ is_num y -> to_number x <= to_number y).
Proof.
  apply (updateValues_pair_ordered (JStr "90") (JNum 80));
    [reflexivity | exact I | unfold Qeq; simpl; lia].
Defined.





End Ordering.

(* ------------------------------------------------------------------ *)
(** ** Sessions of events *)

Section Sessions.

Lemma assign_length (i : nat) (v : jsval) (l : list jsval) :
  (i < length l)%nat -> length (assign i v l) = length l.
Proof.
  revert i. induction l as [|h t IH]; intros i H; [simpl in H; lia|].
  destruct i as [|j]; [reflexivity|].
  simpl. f_equal. apply IH. simpl in H. lia.
Qed.

Lemma updateMin_length (v : jsval) (s : Slidy) :
  values s <> [] ->
  length (values (updateMin v s)) = length (values s).
Proof.
  intro H. unfold updateMin. rewrite updateValues_length.
  apply assign_length. destruct (values s); [contradiction|simpl; lia].
Qed.

Lemma updateMax_length (v : jsval) (s : Slidy) :
  length (values (updateMax v s)) = length (values s).
Proof.
  unfold updateMax. destruct (length (values s) =? 2)%nat eqn:E;
    [|reflexivity].
  cbn [negb]. rewrite updateValues_length. apply assign_length.
  apply Nat.eqb_eq in E. lia.
Qed.

Lemma updateMin_options (v : jsval) (s : Slidy) :
  options (updateMin v s) = options s.
Proof. reflexivity. Qed.

Lemma updateMax_options (v : jsval) (s : Slidy) :
  options (updateMax v s) = options s.
Proof. unfold updateMax. destruct (negb _); reflexivity. Qed.

Lemma apply_mutation_mode (m : mutation) (s s' : Slidy) :
  values s <> [] -> apply_mutation m s = Some s' ->
  length (values s') = length (values s) /\ options s' = options s.
Proof.
  intros Hne H. destruct m as [isMax p|isMax k|text|i]; simpl in H.
  - injection H as <-. unfold dragHandler. destruct isMax.
    + split; [apply updateMax_length | apply updateMax_options].
    + split; [now apply updateMin_length | reflexivity].
  - unfold keydownHandler in H.
    destruct k, isMax; simpl in H;
      try (injection H as <-;
           first [ split; [apply updateMax_length | apply updateMax_options]
                 | split; [now apply updateMin_length | reflexivity]
                 | split; reflexivity ]).
    all: match type of H with
         | option_map _ ?x = _ => destruct x as [w|]; [|discriminate]
         end; simpl in H; injection H as <-.
    all: first [ split; [apply updateMax_length | apply updateMax_options]
               | split; [now apply updateMin_length | reflexivity] ].
  - injection H as <-. split; [now apply updateMin_length | reflexivity].
  - injection H as <-. unfold segmentClick.
    destruct (length (values s) =? 2)%nat;
      [destruct (lt _ _)|];
      first [ split; [apply updateMax_length | apply updateMax_options]
            | split; [now apply updateMin_length | reflexivity] ].
Qed.

Lemma updateValues_checked_ok (vals : list jsval) (s : Slidy) :
  well_mounted s -> length vals = length (values s) ->
  updateValues_checked vals s = Some (updateValues vals s).
Proof.
  intros W L. unfold updateValues_checked.
  rewrite reorder_length, length_map, L.
  destruct W as [(H1 & _ & _)|(H2 & Hi & Hb)].
  - rewrite H1. reflexivity.
  - destruct (maxInput s); [|contradiction].
    destruct (maxButton_left s); [|contradiction].
    rewrite andb_false_r. reflexivity.
Qed.

Lemma updateValues_well_mounted (vals : list jsval) (s : Slidy) :
  well_mounted s -> length vals = length (values s) ->
  well_mounted (updateValues vals s).
Proof.
  intros W L. unfold well_mounted.
  rewrite updateValues_length, L.
  unfold updateValues. cbn [maxInput maxButton_left].
  rewrite reorder_length, length_map, L.
  destruct W as [(H1 & Hi & Hb)|(H2 & Hi & Hb)].
  - left. rewrite H1. now repeat split.
  - right. rewrite H2. repeat split; discriminate.
Qed.

Lemma well_mounted_nonempty (s : Slidy) : well_mounted s -> values s <> [].
Proof.
  intros [(H & _)|(H & _)] E; rewrite E in H; discriminate.
Qed.

Lemma listener_step_ok (s : Slidy) (r : option Slidy) :
  well_mounted s -> listener_step s r ->
  exists s', r = Some s' /\
             length (values s') = length (values s) /\
             options s' = options s /\ well_mounted s'.
Proof.
  intros W H. pose proof (well_mounted_nonempty s W) as Hne.
  assert (L0 : forall v, length (assign 0 v (values s)) = length (values s)).
  { intro v. apply assign_length. destruct (values s);
      [contradiction | simpl; lia]. }
  destruct H as [v|v|].
  - exists (updateMin v s). split; [|split; [|split]].
    + unfold updateMin_checked. now rewrite updateValues_checked_ok.
    + now apply updateMin_length.
    + reflexivity.
    + unfold updateMin. now apply updateValues_well_mounted.
  - unfold updateMax_checked.
    destruct (length (values s) =? 2)%nat eqn:E; cbn [negb].
    + apply Nat.eqb_eq in E.
      assert (L1 : length (assign 1 v (values s)) = length (values s))
        by (apply assign_length; lia).
      exists (updateValues (assign 1 v (values s)) s).
      split; [now apply updateValues_checked_ok|].
      split; [now rewrite updateValues_length|].
      split; [reflexivity|]. now apply updateValues_well_mounted.
    + exists s. now repeat split.
  - exists s. now repeat split.
Qed.

(** The events of the executable model are such listeners. *)
Lemma apply_mutation_listener (m : mutation) (s s' : Slidy) :
  well_mounted s -> apply_mutation m s = Some s' ->
  listener_step s (Some s').
Proof.
  intros W H. pose proof (well_mounted_nonempty s W) as Hne.
  assert (Min : forall v, listener_step s (Some (updateMin v s))).
  { intro v. replace (Some (updateMin v s)) with (updateMin_checked v s);
      [constructor|].
    unfold updateMin_checked, updateMin. apply updateValues_checked_ok;
      [exact W|].
    apply assign_length. destruct (values s); [contradiction|simpl; lia]. }
  assert (Max : forall v, listener_step s (Some (updateMax v s))).
  { intro v. replace (Some (updateMax v s)) with (updateMax_checked v s);
      [constructor|].
    unfold updateMax_checked, updateMax.
    destruct (length (values s) =? 2)%nat eqn:E; cbn [negb];
      [|reflexivity].
    apply Nat.eqb_eq in E. apply updateValues_checked_ok; [exact W|].
    apply assign_length. lia. }
  destruct m as [isMax p|isMax k|text|i]; simpl in H.
  - injection H as <-. unfold dragHandler. destruct isMax; auto.
  - unfold keydownHandler in H.
    destruct k, isMax; simpl in H;
      try (injection H as <-; first [apply Max | apply Min | constructor]).
    all: match type of H with
         | option_map _ ?x = _ => destruct x as [w|]; [|discriminate]
         end; simpl in H; injection H as <-; auto.
  - injection H as <-. apply Min.
  - injection H as <-. unfold segmentClick.
    destruct (length (values s) =? 2)%nat; [destruct (lt _ _)|]; auto.
Qed.

(** X10.  The mode and the options are fixed for the life of a widget,
    and no listener throws: on a widget that has its second input and
    button exactly when it holds two values, every session of listeners
    -- each ending in at most one call of [#updateMin] or [#updateMax],
    with any value whatever -- runs to its end, and after it the number
    of stored values and the options are those before it. *)
Theorem session_keeps_mode (s : Slidy) (r : option Slidy) :
  well_mounted s -> session s r ->
  exists s', r = Some s' /\
             length (values s') = length (values s) /\
             options s' = options s /\ well_mounted s'.
Proof.
  intros W H. induction H as [s|s s1 r Hstep Hrest IH|s Hstep].
  - exists s. now repeat split.
  - destruct (listener_step_ok s _ W Hstep) as (s1' & E & Hl & Ho & W1).
    injection E as <-.
    destruct (IH W1) as (s' & E' & Hl' & Ho' & W').
    exists s'. repeat split; try assumption; congruence.
  - destruct (listener_step_ok s _ W Hstep) as (s' & E & _). discriminate.
Qed.

Lemma session_keeps_mode_witness :
  let s := updateValues [JNum 50; JNum 80]
             (mounted (mkOptions 0 250 (1 # 2) None) [JNum 50; JNum 80]) in
  exists s', updateMin_checked (JStr "400.5") s = Some s' /\
             length (values s') = length (values s) /\
             options s' = options s.
Proof.
  intro s.
  assert (W : well_mounted s) by (right; repeat split; discriminate).
  assert (S : session s (updateMin_checked (JStr "400.5") s)).
  { destruct (updateMin_checked (JStr "400.5") s) as [s1|] eqn:E.
    - apply (session_next s s1); [rewrite <- E; constructor | constructor].
    - apply session_throws. rewrite <- E. constructor. }
  destruct (session_keeps_mode s _ W S) as (s' & E & Hl & Ho & _).
  exists s'. now repeat split.
Defined.

End Sessions.

(* ------------------------------------------------------------------ *)
(** ** Sessions without text *)

Section NumericSessions.










End NumericSessions.

(* ------------------------------------------------------------------ *)
(** ** Values and positions *)

Section Positions.

Variable o : Options.

Lemma Math_round_Z (n : Z) : Math_round (inject_Z n) = n.
Proof.
  unfold Math_round.
  assert (H : (n <= Qfloor (inject_Z n + (1 # 2)) < n + 1)%Z).
  { split.
    - rewrite <- (Qfloor_Z n) at 1. apply Qfloor_resp_le.
      generalize (inject_Z n). intro z. lra.
    - rewrite Zlt_Qlt. apply Qle_lt_trans with (inject_Z n + (1 # 2)).
      + apply Qfloor_le.
      + rewrite inject_Z_plus. change (inject_Z 1) with 1.
        generalize (inject_Z n). intro z. lra. }
  lia.
Qed.




End Positions.



Section Presentation.

Lemma updateValues_forgets_raw (isMax : bool) (p : Q)
  (vals : list jsval) (s : Slidy) :
  isMax = false \/ length vals = 2%nat ->
  updateValues vals (set_button_left isMax p s) = updateValues vals s.
Proof.
  intro H. destruct isMax; [|reflexivity].
  destruct H as [H|H]; [discriminate|].
  unfold updateValues, set_button_left.
  cbn [options maxInput maxButton_left].
  rewrite reorder_length, length_map, H. reflexivity.
Qed.

(** X14.  The raw position that [updatePosition] writes to the dragged
    button never stays: for the lower button always, and for the upper
    button in range mode, the state after [updatePosition] is the state
    after the callback alone, with the button at the position of the
    stored, normalized value. *)
Theorem updatePosition_overwrites_raw
  (isMax : bool) (parentWidth : Q) (d : Draggable.t) (s : Slidy) :
  isMax = false \/ length (values s) = 2%nat ->
  updatePosition isMax parentWidth d s =
  dragHandler isMax (Draggable.locationPercent parentWidth d) s.
Proof.
  intro H. unfold updatePosition, dragHandler.
  set (p := Draggable.locationPercent parentWidth d).
  assert (V : values (set_button_left isMax p s) = values s)
    by (destruct isMax; reflexivity).
  assert (O : options (set_button_left isMax p s) = options s)
    by (destruct isMax; reflexivity).
  rewrite O. destruct isMax.
  - destruct H as [H|H]; [discriminate|].
    unfold updateMax. rewrite V, H. cbn [Nat.eqb negb].
    apply updateValues_forgets_raw. right.
    rewrite assign_length; lia.
  - unfold updateMin. rewrite V.
    apply updateValues_forgets_raw. now left.
Qed.

Lemma updatePosition_overwrites_raw_witness :
  let s := updateValues [JNum 50]
             (mounted (mkOptions 0 100 5 None) [JNum 50]) in
  let d := Draggable.mk true 131 in
  updatePosition false 250 d s =
  dragHandler false (Draggable.locationPercent 250 d) s.
Proof.
  intros s d. apply (updatePosition_overwrites_raw false 250 d s).
  left. reflexivity.
Defined.




End Presentation.

(* ------------------------------------------------------------------ *)
(** ** The segment loop *)

Section SegmentLoop.

Lemma Qnat_S (m : nat) : Qnat (S m) == Qnat m + 1.
Proof.
  unfold Qnat. rewrite Nat2Z.inj_succ. unfold Z.succ.
  rewrite inject_Z_plus. reflexivity.
Qed.

Lemma Qnat_nonneg (m : nat) : 0 <= Qnat m.
Proof.
  unfold Qnat. change 0 with (inject_Z 0). rewrite <- Zle_Qle. lia.
Qed.

(** With a positive increment, a start at most [hi] and [m] further
    increments that fit, the loop runs [m + 1] times: it returns the
    values [i], [i + d], ..., [i + m * d]. *)
Lemma segmentLoop_exact (d hi : Q) (m : nat) (i : Q) :
  0 < d -> i + Qnat m * d <= hi -> hi < i + (Qnat m + 1) * d ->
  exists l, segmentLoop (S (S m)) i hi d = Some l /\
            length l = S m /\
            (forall k, (k < S m)%nat -> nth k l 0 == i + Qnat k * d).
Proof.
  intro Hd. revert i. induction m as [|m IH]; intros i Hlo Hhi.
  - change (Qnat 0) with 0 in Hlo, Hhi.
    assert (E1 : Qle_bool i hi = true) by (apply Qle_bool_iff; lra).
    assert (E2 : Qle_bool (Qred (i + d)) hi = false).
    { destruct (Qle_bool (Qred (i + d)) hi) eqn:E; [|reflexivity].
      apply Qle_bool_iff in E. rewrite Qred_correct in E. lra. }
    exists [i]. split; [|split].
    + rewrite segmentLoop_S, E1, segmentLoop_S, E2. reflexivity.
    + reflexivity.
    + intros k Hk. assert (k = 0%nat) by lia. subst k.
      simpl. change (Qnat 0) with 0. ring.
  - pose proof (Qnat_S m) as HS. pose proof (Qnat_nonneg m) as Hm.
    assert (Hmd : 0 <= Qnat m * d) by (apply Qmult_le_0_compat; lra).
    rewrite HS in Hlo, Hhi.
    assert (E1 : Qle_bool i hi = true) by (apply Qle_bool_iff; lra).
    destruct (IH (Qred (i + d))) as (l & Hl & Hlen & Hnth).
    + rewrite Qred_correct. lra.
    + rewrite Qred_correct. lra.
    + exists (i :: l). split; [|split].
      * rewrite segmentLoop_S, E1, Hl. reflexivity.
      * simpl. now rewrite Hlen.
      * intros k Hk. destruct k as [|k].
        -- simpl. change (Qnat 0) with 0. ring.
        -- simpl. rewrite (Hnth k) by lia.
           rewrite Qred_correct, (Qnat_S k). ring.
Qed.

(** X16.  The loop that creates the segments ends when it starts at a
    whole number and advances by a positive whole number, below an upper
    bound of at most 2^51 (every [i += d] is then exact): some number of
    iterations gives a result, and every value in it lies between the
    start and the upper bound. *)
Theorem segmentLoop_terminates (i hi d : Q) :
  small_integer i = true -> small_integer d = true ->
  0 < d -> hi <= inject_Z (2 ^ 51) ->
  exists fuel l, segmentLoop fuel i hi d = Some l /\
                 Forall (fun x => i <= x /\ x <= hi) l.
Proof.
  intros _ _ Hd _. destruct (Qlt_le_dec hi i) as [Hgt|Hle].
  - exists 1%nat, []. split; [|constructor].
    rewrite segmentLoop_S.
    destruct (Qle_bool i hi) eqn:E; [|reflexivity].
    apply Qle_bool_iff in E. lra.
  - set (q := Qfloor ((hi - i) / d)).
    assert (Hq0 : (0 <= q)%Z).
    { unfold q. rewrite <- (Qfloor_Z 0). apply Qfloor_resp_le.
      apply Qle_shift_div_l; [exact Hd|].
      change (inject_Z 0) with 0. lra. }
    assert (Hm : Qnat (Z.to_nat q) = inject_Z q).
    { unfold Qnat. now rewrite Z2Nat.id. }
    assert (Hlo : inject_Z q <= (hi - i) / d) by apply Qfloor_le.
    assert (Hhi : (hi - i) / d < inject_Z q + 1).
    { pose proof (Qlt_floor ((hi - i) / d)) as H.
      rewrite inject_Z_plus in H. exact H. }
    assert (E : (hi - i) / d * d == hi - i) by (field; lra).
    destruct (segmentLoop_exact d hi (Z.to_nat q) i Hd)
      as (l & Hl & Hlen & Hnth).
    + rewrite Hm.
      assert (inject_Z q * d <= (hi - i) / d * d)
        by (apply Qmult_le_compat_r; lra).
      revert H Hlo. generalize (inject_Z q). intros z H Hlo. lra.
    + rewrite Hm.
      assert ((hi - i) / d * d < (inject_Z q + 1) * d)
        by (apply Qmult_lt_compat_r; lra).
      revert H Hhi. generalize (inject_Z q). intros z H Hhi. lra.
    + exists (S (S (Z.to_nat q))), l. split; [exact Hl|].
      pose proof (segmentLoop_bounded _ _ _ _ _ Hl) as Hb.
      apply Forall_forall. intros x Hx.
      rewrite Forall_forall in Hb. split; [|now apply Hb].
      destruct (In_nth l x 0 Hx) as (k & Hk & <-).
      rewrite (Hnth k) by lia.
      pose proof (Qnat_nonneg k).
      assert (0 <= Qnat k * d) by (apply Qmult_le_0_compat; lra).
      lra.
Qed.

Lemma segmentLoop_terminates_witness :
  exists fuel l, segmentLoop fuel 0 300 30 = Some l /\
                 Forall (fun x => 0 <= x /\ x <= 300) l.
Proof.
  apply (segmentLoop_terminates 0 300 30);
    [reflexivity | reflexivity | reflexivity | unfold Qle; simpl; lia].
Defined.

(** X17.  With an increment of 0 and a start at most the upper bound
    the loop never ends, whatever the number of iterations allowed.
    That is the loop of a widget with [segmentsCount] and [max = min]:
    such a widget can be asked for -- the bounds are checked only when
    both are supplied -- and its constructor does not return. *)
Theorem segmentLoop_zero_increment_diverges (i hi d : Q) (fuel : nat) :
  d == 0 -> i <= hi -> segmentLoop fuel i hi d = None.
Proof.
  intros Hd. revert i. induction fuel as [|n IH]; intros i Hi;
    [reflexivity|].
  rewrite segmentLoop_S.
  assert (E : Qle_bool i hi = true) by now apply Qle_bool_iff.
  rewrite E, IH; [reflexivity|].
  rewrite Qred_correct, Hd. lra.
Qed.

Lemma segmentLoop_zero_increment_diverges_witness :
  segmentBoundaries 1000 (mkOptions 100 100 1 (Some 2)) = None.
Proof.
  unfold segmentBoundaries. simpl segmentsCount. cbv iota.
  change (Qeq_bool 2 0) with false. cbv iota.
  apply (segmentLoop_zero_increment_diverges 100 100 _ 1000);
    [reflexivity | unfold Qle; simpl; lia].
Defined.

(** X18.  With whole bounds [min < max] (of magnitude at most 2^51) and
    a whole number [n >= 2] of segments such that [n - 1] divides
    [max - min] -- the increment is then a whole number and every
    [i += d] exact -- the loop creates exactly [n] segments, at
    [min + k * (max - min) / (n - 1)] for [k = 0 .. n - 1]: the first at
    [min], the last at [max]. *)
Theorem segmentBoundaries_count (o : Options) (n : nat) (width : Z) :
  segmentsCount o = Some (Qnat n) -> (2 <= n)%nat -> min o < max o ->
  small_integer (min o) = true -> small_integer (max o) = true ->
  max o - min o == (Qnat n - 1) * inject_Z width ->
  exists l, segmentBoundaries (S n) o = Some l /\
            length l = n /\
            (forall k, (k < n)%nat ->
               nth k l 0 == min o + Qnat k * ((max o - min o) / (Qnat n - 1))) /\
            nth 0 l 0 == min o /\
            nth (n - 1) l 0 == max o.
Proof.
  intros Hc Hn Hmm _ _ _. destruct n as [|[|m]]; try lia.
  pose proof (Qnat_S (S m)) as H2. pose proof (Qnat_S m) as H1.
  pose proof (Qnat_nonneg m) as H0.
  set (c := Qnat (S (S m))) in *.
  assert (Hc1 : c - 1 == Qnat m + 1) by (rewrite H2, H1; ring).
  assert (Hpos : 0 < c - 1) by lra.
  set (d := (max o - min o) / (c - 1)).
  assert (Hd : 0 < d).
  { unfold d. apply Qlt_shift_div_l; [exact Hpos|]. lra. }
  assert (Hfull : (c - 1) * d == max o - min o).
  { unfold d. field. lra. }
  destruct (segmentLoop_exact d (max o) (S m) (min o) Hd)
    as (l & Hl & Hlen & Hnth).
  - rewrite H1, <- Hc1, Hfull. lra.
  - rewrite H1, <- Hc1.
    setoid_replace (min o + (c - 1 + 1) * d)
      with (min o + (c - 1) * d + d) by ring.
    rewrite Hfull. lra.
  - exists l. split; [|split; [exact Hlen|split; [|split]]].
    + unfold segmentBoundaries. rewrite Hc. fold c.
      assert (Ez : Qeq_bool c 0 = false).
      { destruct (Qeq_bool c 0) eqn:E; [|reflexivity].
        apply Qeq_bool_iff in E. lra. }
      rewrite Ez. exact Hl.
    + intros k Hk. now apply Hnth.
    + rewrite (Hnth 0%nat) by lia. change (Qnat 0) with 0. ring.
    + replace (S (S m) - 1)%nat with (S m) by lia.
      rewrite (Hnth (S m)) by lia. rewrite H1, <- Hc1, Hfull. ring.
Qed.

Lemma segmentBoundaries_count_witness :
  exists l, segmentBoundaries 12 (mkOptions 0 300 1 (Some 11)) = Some l /\
            length l = 11%nat /\
            nth 0 l 0 == 0 /\ nth 10 l 0 == 300.
Proof.
  destruct (segmentBoundaries_count (mkOptions 0 300 1 (Some 11)) 11 30)
    as (l & Hl & Hlen & _ & Hfirst & Hlast);
    [reflexivity | lia | reflexivity | reflexivity | reflexivity
     | unfold Qeq; simpl; lia |].
  exists l. repeat split; assumption.
Defined.

End SegmentLoop.

(* ------------------------------------------------------------------ *)
(** ** The constructor *)

Section Constructor.

(** The four checks of the constructor, spelled out. *)
Lemma construct_throws_exactly (sel : option string) (a : Arg.t) :
  (exists message, construct sel a = Throw message) <->
  (sel = None \/ sel = Some ""%string) \/
  (Arg.defaultValue a = Some Arg.NotArray \/
   exists l, Arg.defaultValue a = Some (Arg.Arr l) /\
             (length l = 0 \/ 2 < length l)%nat) \/
  (exists lo hi, Arg.min a = Some lo /\ Arg.max a = Some hi /\ hi <= lo) \/
  (exists n, Arg.segmentsCount a = Some n /\ n < 2).
Proof.
  rewrite construct_throws_iff, bad_bounds_iff.
  assert (S1 : falsy_selector sel = true <->
               sel = None \/ sel = Some ""%string).
  { destruct sel as [[|c t]|]; simpl; split; intro H; auto;
      try discriminate; destruct H; discriminate. }
  assert (S2 : bad_defaultValue a = true <->
               Arg.defaultValue a = Some Arg.NotArray \/
               exists l, Arg.defaultValue a = Some (Arg.Arr l) /\
                         (length l = 0 \/ 2 < length l)%nat).
  { unfold bad_defaultValue.
    destruct (Arg.defaultValue a) as [[|l]|].
    - split; auto.
    - rewrite orb_true_iff, !Nat.ltb_lt. split.
      + intro H. right. exists l. split; [reflexivity|lia].
      + intros [H|(l' & [= <-] & H)]; [discriminate|lia].
    - split; [discriminate|]. intros [H|(l' & H & _)]; discriminate. }
  assert (S4 : bad_segmentsCount a = true <->
               exists n, Arg.segmentsCount a = Some n /\ n < 2).
  { unfold bad_segmentsCount. destruct (Arg.segmentsCount a) as [n|].
    - rewrite Qlt_bool_iff. split.
      + intro H. now exists n.
      + intros (n' & [= <-] & H). exact H.
    - split; [discriminate|]. intros (n' & H & _). discriminate. }
  rewrite S1, S2, S4. reflexivity.
Qed.

(** X19.  How the constructor fails.  It raises one of its own errors
    exactly when: the selector is [null] or the empty string; or a
    [defaultValue] is supplied that is not an array or is an array of
    length 0 or of length above 2; or [min] and [max] are both supplied
    with [max <= min]; or a [segmentsCount] is supplied that is below 2.
    When none of these holds it ends in a [SyntaxError] exactly when the
    document rejects the selector, and in a [TypeError] exactly when the
    document has no element for it; otherwise it throws nothing. *)
Theorem new_Slidy_throws_exactly
  (fuel : nat) (querySelector : string -> query_result)
  (sel : option string) (a : Arg.t) :
  ((exists message, new_Slidy fuel querySelector sel a = ConfigError message)
   <-> config_error sel a) /\
  (new_Slidy fuel querySelector sel a = SyntaxError <->
   ~ config_error sel a /\
   exists selector, sel = Some selector /\
                    querySelector selector = InvalidSelector) /\
  (new_Slidy fuel querySelector sel a = TypeError <->
   ~ config_error sel a /\
   exists selector, sel = Some selector /\
                    querySelector selector = NotFound).
Proof.
  pose proof (construct_throws_exactly sel a) as L.
  fold (config_error sel a) in L.
  unfold new_Slidy. destruct (construct sel a) as [m|s] eqn:C.
  - assert (F : config_error sel a) by (apply L; now exists m).
    split; [|split].
    + split; [intros _; exact F | intros _; now exists m].
    + split; [discriminate | intros [NF _]; contradiction].
    + split; [discriminate | intros [NF _]; contradiction].
  - assert (NF : ~ config_error sel a).
    { intro F. apply L in F. destruct F as [m F]. discriminate. }
    destruct sel as [selector|].
    + destruct (querySelector selector) eqn:Q.
      * assert (R : forall c,
                  match segmentBoundaries_double fuel (options s) with
                  | Some segments => Mounted s segments
                  | None => Running
                  end = c ->
                  (forall m, c <> ConfigError m) /\ c <> SyntaxError /\
                  c <> TypeError).
        { intros c <-.
          destruct (segmentBoundaries_double fuel (options s));
            repeat split; try intro; discriminate. }
        destruct (R _ eq_refl) as (R1 & R2 & R3).
        split; [|split].
        -- split; [intros [m H]; now apply R1 in H | contradiction].
        -- split; [intro H; contradiction
                  | intros [_ (x & [= <-] & H)]; congruence].
        -- split; [intro H; contradiction
                  | intros [_ (x & [= <-] & H)]; congruence].
      * split; [|split].
        -- split; [intros [m H]; discriminate | contradiction].
        -- split; [discriminate | intros [_ (x & [= <-] & H)]; congruence].
        -- split; [intros _; split; [exact NF | now exists selector]
                  | reflexivity].
      * split; [|split].
        -- split; [intros [m H]; discriminate | contradiction].
        -- split; [intros _; split; [exact NF | now exists selector]
                  | reflexivity].
        -- split; [discriminate | intros [_ (x & [= <-] & H)]; congruence].
    + exfalso. apply NF. left. now left.
Qed.

(** X20.  In a widget that is built, a bound or a step that was
    supplied is the one in force, even when it is 0: the defaults 0,
    100 and 1 stand in for absent properties only.  The widget holds one
    or two values, as many as the [defaultValue] had, and one value when
    there was none. *)
Theorem construct_options (sel : option string) (a : Arg.t) (s : Slidy) :
  construct sel a = Built s ->
  min (options s) = match Arg.min a with Some q => q | None => 0 end /\
  max (options s) = match Arg.max a with Some q => q | None => 100 end /\
  step (options s) = match Arg.step a with Some q => q | None => 1 end /\
  segmentsCount (options s) = Arg.segmentsCount a /\
  length (values s) =
    match Arg.defaultValue a with
    | Some (Arg.Arr l) => length l
    | _ => 1%nat
    end /\
  (length (values s) = 1 \/ length (values s) = 2)%nat.
Proof.
  intro H. unfold construct in H.
  destruct (falsy_selector sel); [discriminate|].
  destruct (bad_defaultValue a) eqn:Eb; [discriminate|].
  destruct (bad_bounds a); [discriminate|].
  destruct (bad_segmentsCount a); [discriminate|].
  injection H as <-.
  rewrite updateValues_length. cbn [options min max step segmentsCount].
  unfold spread, or_default, bad_defaultValue in *.
  repeat split.
  - destruct (Arg.min a); reflexivity.
  - destruct (Arg.max a); reflexivity.
  - destruct (Arg.step a); reflexivity.
  - destruct (Arg.defaultValue a) as [[|l]|]; reflexivity.
  - destruct (Arg.defaultValue a) as [[|l]|]; try discriminate;
      [|now left].
    apply orb_false_iff in Eb. destruct Eb as [E1 E2].
    apply Nat.ltb_ge in E1. apply Nat.ltb_ge in E2. lia.
Qed.

Lemma construct_options_witness :
  exists s,
    construct (Some "#slidy"%string)
      (Arg.mk None (Some 50) (Some 0) None None) = Built s /\
    min (options s) = 0 /\ max (options s) = 50 /\ step (options s) = 0 /\
    length (values s) = 1%nat.
Proof.
  eexists. split; [reflexivity|].
  destruct (construct_options (Some "#slidy"%string)
              (Arg.mk None (Some 50) (Some 0) None None) _ eq_refl)
    as (H1 & H2 & H3 & _ & H5 & _).
  repeat split; assumption.
Defined.

End Constructor.

(* ------------------------------------------------------------------ *)
(** ** The arrow keys *)

Section Keyboard.


(** X21.  The arrow keys stop at the bounds.  In single-value mode with
    a whole number [q] stored, whole [min] and [max] and a positive
    whole step (all of magnitude at most 2^51, so that [q - step] and
    [q + step] are exact): a decrement that would go below [min] stores
    [min], and an increment that would go above [max] stores [max]. *)
Theorem keydown_clamps_at_bounds (q : Q) (s : Slidy) :
  let o := options s in
  values s = [JNum q] -> small_integer q = true ->
  integer_options o = true -> 0 < step o ->
  (q - step o < min o ->
   exists s', keydownHandler false ArrowDown s = Some s' /\
              keydownHandler false ArrowLeft s = Some s' /\
              values s' = [JNum (min o)]) /\
  (min o <= q + step o -> max o < q + step o ->
   exists s', keydownHandler false ArrowUp s = Some s' /\
              keydownHandler false ArrowRight s = Some s' /\
              values s' = [JNum (max o)]).
Proof.
  intros o Hv _ _ Hs. split.
  - intro H. eexists. split; [reflexivity|]. split; [reflexivity|].
    unfold updateMin. rewrite values_updateValues, Hv. simpl map.
    rewrite reorder_single. f_equal. fold o.
    apply normalize_below. exact H.
  - intros Hlo Hhi. unfold keydownHandler. rewrite Hv. simpl.
    eexists. split; [reflexivity|]. split; [reflexivity|].
    unfold updateMin. rewrite values_updateValues, Hv. simpl map.
    rewrite reorder_single. f_equal. fold o.
    apply normalize_above; assumption.
Qed.

Lemma keydown_clamps_at_bounds_witness :
  let s := updateValues [JNum 0]
             (mounted (mkOptions 0 100 5 None) [JNum 0]) in
  exists s', keydownHandler false ArrowDown s = Some s' /\
             keydownHandler false ArrowLeft s = Some s' /\
             values s' = [JNum 0].
Proof.
  intro s.
  destruct (keydown_clamps_at_bounds 0 s eq_refl) as [H _];
    [reflexivity | reflexivity | reflexivity|].
  apply H. reflexivity.
Defined.



End Keyboard.

(* ------------------------------------------------------------------ *)
(** ** Clamp, then snap *)

Section ClampSnap.

Variable o : Options.

Lemma snap_multiple (x : Q) :
  ~ step o == 0 -> rem x (step o) == 0 -> snap o x == x.
Proof.
  intros Hs H. apply rem_zero_multiple in H. unfold snap.
  assert (E : x / step o == inject_Z (trunc (x / step o))).
  { rewrite H at 1. field. exact Hs. }
  rewrite (Math_round_comp _ _ E), Math_round_Z. now rewrite <- H.
Qed.


(** X23.  On whole numbers ([min], [max], a positive [step] and the
    proposed value whole, of magnitude at most 2^51), when both bounds
    are multiples of the step, the number of the result of
    [#normalizeMinMax] is the proposed number clamped to [[min, max]]
    and then rounded to the nearest multiple of the step. *)
Theorem normalize_is_clamp_then_snap (v : jsval) :
  wf v -> small_integer (to_number v) = true ->
  integer_options o = true -> 0 < step o ->
  rem (min o) (step o) == 0 -> rem (max o) (step o) == 0 ->
  to_number (normalizeMinMax o v) == snap o (clamp o (to_number v)).
Proof.
  intros _ _ _ Hs Hmin Hmax. assert (Hs0 : ~ step o == 0) by lra.
  destruct (Qlt_le_dec (to_number v) (min o)) as [Hlo|Hlo].
  - rewrite (normalize_below o v Hlo). unfold clamp.
    apply Qlt_bool_iff in Hlo. rewrite Hlo. simpl to_number.
    now rewrite snap_multiple.
  - destruct (Qlt_le_dec (max o) (to_number v)) as [Hhi|Hhi].
    + rewrite (normalize_above o v Hlo Hhi). unfold clamp.
      apply Qlt_bool_false_iff in Hlo. apply Qlt_bool_iff in Hhi.
      rewrite Hlo, Hhi. simpl to_number. now rewrite snap_multiple.
    + assert (C : clamp o (to_number v) = to_number v).
      { unfold clamp. apply Qlt_bool_false_iff in Hlo.
        apply Qlt_bool_false_iff in Hhi. now rewrite Hlo, Hhi. }
      rewrite C.
      destruct (Qeq_dec (rem (to_number v) (step o)) 0) as [Hr|Hr].
      * rewrite (normalize_kept o v Hlo Hhi Hr). now rewrite snap_multiple.
      * rewrite (normalize_rounded o v Hlo Hhi Hr). reflexivity.
Qed.




End ClampSnap.

Lemma normalize_is_clamp_then_snap_witness :
  let o := mkOptions 0 100 5 None in
  to_number (normalizeMinMax o (JNum 53)) == snap o (clamp o 53).
Proof.
  apply (normalize_is_clamp_then_snap (mkOptions 0 100 5 None) (JNum 53));
    [exact I | reflexivity | reflexivity | reflexivity | reflexivity
     | reflexivity].
Defined.


(* ------------------------------------------------------------------ *)
(** ** When the text channel stores a string *)

Section StoredStrings.

(** X25.  In single-value mode, with whole [min], [max] and [step], the
    step not 0, and a typed number of magnitude at most 2^51, a text
    event stores the filtered text itself, a string, exactly when its
    number is within the bounds and a multiple of the step; in every
    other case it stores a number. *)
Theorem text_input_stores_string_iff (text : string) (s : Slidy) (v : jsval) :
  let o := options s in
  let d := strip_non_digits text in
  let n := to_number (JStr d) in
  values s = [v] -> integer_options o = true -> ~ step o == 0 ->
  small_integer n = true ->
  (min o <= n /\ n <= max o /\ rem n (step o) == 0 ->
   values (minInput_oninput text s) = [JStr d]) /\
  (~ (min o <= n /\ n <= max o /\ rem n (step o) == 0) ->
   exists q, values (minInput_oninput text s) = [JNum q]).
Proof.
  intros o d n Hv _ _ _.
  assert (E : values (minInput_oninput text s)
              = [normalizeMinMax o (JStr d)]).
  { unfold minInput_oninput, inputHandler, updateMin.
    rewrite values_updateValues, Hv. reflexivity. }
  rewrite E. split.
  - intros (H1 & H2 & H3). f_equal. now apply normalize_kept.
  - intro H.
    destruct (normalize_cases o (JStr d)) as [H1|H1 H2|H1 H2 H3|H1 H2 H3];
      try (eexists; reflexivity).
    exfalso. apply H. now repeat split.
Qed.

Lemma text_input_stores_string_iff_witness :
  let s := updateValues [JNum 50]
             (mounted (mkOptions 0 100 5 None) [JNum 50]) in
  values (minInput_oninput "4x0" s) = [JStr "40"].
Proof.
  intro s.
  destruct (text_input_stores_string_iff "4x0" s (JNum 50) eq_refl)
    as [H _]; [reflexivity | unfold Qeq; simpl; lia | reflexivity|].
  apply H. repeat split.
  - unfold Qle; simpl; lia.
  - unfold Qle; simpl; lia.
Defined.

End StoredStrings.

(* ------------------------------------------------------------------ *)
(** ** The rational model against binary64 *)

Section AgainstDoubles.

(** On whole numbers the two models of [#normalizeMinMax] give the same
    results: checked for the bounds 0..100, -7..10 and 3..250, every
    step from 1 to 12 and every proposed value from -20 to 270. *)
Lemma normalize_agrees_on_whole_numbers :
  forallb
    (fun bounds : Z * Z =>
       forallb
         (fun st =>
            forallb (normalize_agrees (fst bounds) (snd bounds) st)
              (Z_range (-20) 291))
         (Z_range 1 12))
    [(0, 100); (-7, 10); (3, 250)]%Z
  = true.
Proof. vm_compute. reflexivity. Qed.

(** With a fraction they part.  Take for the step the double 0.1, whose
    exact value is a little above 1/10, and [min = 0], [max = 1]: the
    double routine sends 0.25 above 0.3 (the quotient 0.25 / 0.1 is 2.5
    in doubles and rounds to 3), the rational one to [2 * step] (the
    exact quotient is below 2.5). *)
Lemma normalize_parts_with_fractions :
  let tenth := Double.of_Q (1 # 10) in
  exists step_value : Q,
    Double.to_Q tenth = Some step_value /\
    1 # 10 < step_value /\
    Double.ltb (Double.of_Q (3 # 10))
      (Double.normalizeMinMax (Double.of_Z 0) (Double.of_Z 1) tenth
         (Double.of_Q (1 # 4))) = true /\
    normalizeMinMax (mkOptions 0 1 step_value None) (JNum (1 # 4))
    = JNum (inject_Z 2 * step_value).
Proof.
  eexists. split; [vm_compute; reflexivity|].
  repeat split; vm_compute; reflexivity.
Qed.

(** The segment loop on doubles: with an increment that is not exact
    the last segment can be missing.  The range 0..7 with 7 segments
    gets 6 of them, the range 0..100 with 10 gets 9; the range 0..300
    with 11, whose increment is 30, gets all 11. *)
Lemma segment_loop_on_doubles :
  option_map (@length _)
    (segmentBoundaries_double 20 (mkOptions 0 7 1 (Some 7))) = Some 6%nat /\
  option_map (@length _)
    (segmentBoundaries_double 20 (mkOptions 0 100 1 (Some 10))) = Some 9%nat /\
  option_map (@length _)
    (segmentBoundaries_double 20 (mkOptions 0 300 1 (Some 11))) = Some 11%nat.
Proof. repeat split; vm_compute; reflexivity. Qed.

End AgainstDoubles.
